(** * Verification of the club scraper: extraction engine and resumable store

    Shallow embedding of
      - [src/src/scraper_by_scl.py]   ([SCLScraper.extract_club_by_scl]),
      - [src/src/scrape_to_csv.py]    ([scrape_all_to_csv], append mode),
      - [src/scripts/scrape_range.py] ([scrape_range], overwrite-by-key mode),
    followed by the theorems about them.

    Conventions of the embedding.
      - A Python [str] is a Rocq [string] holding one character per code
        point, over the Latin-1 range of Unicode (code points 0..255): the
        character of code 233 is "e acute", 176 is the degree sign.  Every
        literal of the source lies in that range.
      - Python dictionaries keyed by integers are [gmap Z _].
      - Exceptions are values of [outcome]. *)

From Stdlib Require Import ZArith NArith Ascii String List Bool Lia.
From Stdlib Require Import DecimalString DecimalPos.
From stdpp Require Import base option list gmap sorting strings.

Local Open Scope string_scope.
Local Open Scope Z_scope.

(** ** Python strings over Latin-1 *)

Module PyStr.

Definition code (c : ascii) : N := N_of_ascii c.

Definition in_range (lo hi : N) (c : ascii) : bool :=
  ((lo <=? code c) && (code c <=? hi))%N.

(** [str.isspace] on one character, which is also the class [\s] of [re]
    on [str] patterns and the set removed by [str.strip()]. *)
Definition isspace (c : ascii) : bool :=
  in_range 9 13 c || in_range 28 32 c
  || (code c =? 133)%N || (code c =? 160)%N.

(** The class [\d] of [re] ([str.isdecimal]). *)
Definition isdecimal (c : ascii) : bool := in_range 48 57 c.

(** [str.isdigit] on one character: the decimal digits and the superscript
    digits (codes 178, 179, 185), which [int()] does not accept. *)
Definition isdigit_char (c : ascii) : bool :=
  isdecimal c || (code c =? 178)%N || (code c =? 179)%N || (code c =? 185)%N.

(** [str.isalpha] on one character. *)
Definition isalpha (c : ascii) : bool :=
  in_range 65 90 c || in_range 97 122 c
  || (code c =? 170)%N || (code c =? 181)%N || (code c =? 186)%N
  || in_range 192 214 c || in_range 216 246 c || in_range 248 255 c.

(** Lower-casing of one character ([str.lower], and the case folding of
    [re.IGNORECASE]). *)
Definition lower_char (c : ascii) : ascii :=
  if in_range 65 90 c || (in_range 192 222 c && negb (code c =? 215)%N)
  then ascii_of_N (code c + 32)
  else c.

Fixpoint lower (s : string) : string :=
  match s with
  | EmptyString => EmptyString
  | String c s' => String (lower_char c) (lower s')
  end.

(** [len(s)] *)
Definition len (s : string) : Z := Z.of_nat (String.length s).

(** Truth value of a string: non-empty. *)
Definition truthy (s : string) : bool :=
  match s with EmptyString => false | _ => true end.

Fixpoint lstrip (s : string) : string :=
  match s with
  | String c s' => if isspace c then lstrip s' else s
  | EmptyString => EmptyString
  end.

(** [rstrip] keeps a character when it is not white space or when
    something that is kept follows it. *)
Fixpoint rstrip (s : string) : string :=
  match s with
  | EmptyString => EmptyString
  | String c s' =>
      match rstrip s' with
      | EmptyString => if isspace c then EmptyString else String c EmptyString
      | r => String c r
      end
  end.

(** [s.strip()] *)
Definition strip (s : string) : string := rstrip (lstrip s).

Fixpoint is_prefix (p s : string) : bool :=
  match p, s with
  | EmptyString, _ => true
  | String a p', String b s' => Ascii.eqb a b && is_prefix p' s'
  | String _ _, EmptyString => false
  end.

(** [needle in hay] *)
Fixpoint contains (needle hay : string) : bool :=
  is_prefix needle hay ||
  match hay with
  | EmptyString => false
  | String _ hay' => contains needle hay'
  end.

(** [any(word in text for word in words)] *)
Definition contains_any (words : list string) (text : string) : bool :=
  existsb (fun w => contains w text) words.

(** [any(c.isalpha() for c in s)] *)
Fixpoint any_alpha (s : string) : bool :=
  match s with
  | EmptyString => false
  | String c s' => isalpha c || any_alpha s'
  end.

(** [len(s.split())]: the number of maximal runs of non-space characters.
    [inw] tells whether the previous character belonged to a word. *)
Fixpoint count_words_from (inw : bool) (s : string) : nat :=
  match s with
  | EmptyString => O
  | String c s' =>
      if isspace c then count_words_from false s'
      else (if inw then O else 1%nat) + count_words_from true s'
  end.

Definition count_words (s : string) : Z := Z.of_nat (count_words_from false s).

(** [s.split(sep)[0]] for a one-character separator: the text before the
    first separator. *)
Fixpoint first_token (sep : ascii) (s : string) : string :=
  match s with
  | EmptyString => EmptyString
  | String c s' =>
      if Ascii.eqb c sep then EmptyString else String c (first_token sep s')
  end.

(** [re.sub(r'[^\d]', '', s)] *)
Fixpoint keep_decimal (s : string) : string :=
  match s with
  | EmptyString => EmptyString
  | String c s' =>
      if isdecimal c then String c (keep_decimal s') else keep_decimal s'
  end.

Fixpoint forallb_str (p : ascii → bool) (s : string) : bool :=
  match s with
  | EmptyString => true
  | String c s' => p c && forallb_str p s'
  end.

(** [s.isdigit()]: non-empty and every character a digit. *)
Definition isdigit (s : string) : bool :=
  truthy s && forallb_str isdigit_char s.

(** [str(k)] for an integer. *)
Definition str_of_Z (k : Z) : string := NilZero.string_of_int (Z.to_int k).

(** [int(s)]: optional surrounding white space, an optional sign, then
    decimal digits, where single underscores may separate digits.
    [None] stands for [ValueError]. *)
Fixpoint digits_value (acc : Z) (prev_digit : bool) (s : string) : option Z :=
  match s with
  | EmptyString => if prev_digit then Some acc else None
  | String c s' =>
      if isdecimal c
      then digits_value (10 * acc + Z.of_N (code c - 48)) true s'
      else if Ascii.eqb c "_" && prev_digit
      then match s' with
           | String d _ => if isdecimal d then digits_value acc false s' else None
           | EmptyString => None
           end
      else None
  end.

Definition int_of_str (s : string) : option Z :=
  match strip s with
  | String "-" s' => Z.opp <$> digits_value 0 false s'
  | String "+" s' => digits_value 0 false s'
  | s' => digits_value 0 false s'
  end.

(** The value of a run of decimal digits read after accumulator [acc]. *)
Fixpoint uint_val (acc : Z) (d : Decimal.uint) : Z :=
  match d with
  | Decimal.Nil => acc
  | Decimal.D0 d => uint_val (10 * acc) d
  | Decimal.D1 d => uint_val (10 * acc + 1) d
  | Decimal.D2 d => uint_val (10 * acc + 2) d
  | Decimal.D3 d => uint_val (10 * acc + 3) d
  | Decimal.D4 d => uint_val (10 * acc + 4) d
  | Decimal.D5 d => uint_val (10 * acc + 5) d
  | Decimal.D6 d => uint_val (10 * acc + 6) d
  | Decimal.D7 d => uint_val (10 * acc + 7) d
  | Decimal.D8 d => uint_val (10 * acc + 8) d
  | Decimal.D9 d => uint_val (10 * acc + 9) d
  end.

End PyStr.

(** ** Regular expressions as used by the scraper

    Every pattern of the source is a sequence of literals, character classes
    and repetitions of one character class, with exactly one capturing
    group around a contiguous part of the sequence.  The matcher tries the
    alternatives in the order of Python's backtracking matcher (greedy
    repetitions longest first, lazy ones shortest first) and [search] tries
    the start positions from left to right. *)

Module Re.
Import PyStr.

Inductive atom : Type :=
| Lit (c : ascii)
    (* a literal character, compared up to case (re.IGNORECASE) *)
| Cls (p : ascii → bool)
    (* one character of a class *)
| Rep (greedy : bool) (lo : nat) (hi : option nat) (p : ascii → bool).
    (* [p{lo,hi}] (or [p{lo,}] when [hi] is [None]); lazy when not greedy *)

Definition lit_eq (c x : ascii) : bool := Ascii.eqb (lower_char x) (lower_char c).

(** The literal text [s] as a sequence of atoms. *)
Fixpoint lits (s : string) : list atom :=
  match s with
  | EmptyString => []
  | String c s' => Lit c :: lits s'
  end.

Definition star (p : ascii → bool) : atom := Rep true 0 None p.
Definition plus (p : ascii → bool) : atom := Rep true 1 None p.

Definition can_take (hi : option nat) : bool :=
  match hi with Some O => false | _ => true end.

Definition dec (hi : option nat) : option nat := Nat.pred <$> hi.

Section Matcher.
Context {A : Type}.

Fixpoint rep_greedy (p : ascii → bool) (lo : nat) (hi : option nat)
         (s : string) (k : string → option A) : option A :=
  let stop := match lo with O => k s | S _ => None end in
  match s with
  | String c s' =>
      if p c && can_take hi then
        match rep_greedy p (Nat.pred lo) (dec hi) s' k with
        | Some a => Some a
        | None => stop
        end
      else stop
  | EmptyString => stop
  end.

Fixpoint rep_lazy (p : ascii → bool) (lo : nat) (hi : option nat)
         (s : string) (k : string → option A) : option A :=
  let more :=
    match s with
    | String c s' =>
        if p c && can_take hi then rep_lazy p (Nat.pred lo) (dec hi) s' k
        else None
    | EmptyString => None
    end in
  match lo with
  | O => match k s with Some a => Some a | None => more end
  | S _ => more
  end.

Fixpoint match_atoms (atoms : list atom) (s : string)
         (k : string → option A) : option A :=
  match atoms with
  | [] => k s
  | Lit c :: rest =>
      match s with
      | String x s' => if lit_eq c x then match_atoms rest s' k else None
      | EmptyString => None
      end
  | Cls p :: rest =>
      match s with
      | String x s' => if p x then match_atoms rest s' k else None
      | EmptyString => None
      end
  | Rep true lo hi p :: rest =>
      rep_greedy p lo hi s (fun s' => match_atoms rest s' k)
  | Rep false lo hi p :: rest =>
      rep_lazy p lo hi s (fun s' => match_atoms rest s' k)
  end.
End Matcher.

(** A pattern [pre (grp) post]. *)
Record pattern : Type := Pattern
  { pre : list atom; grp : list atom; post : list atom }.

(** A match object: [group1] is [match.group(1)], [after] the text that
    follows the whole match. *)
Record rmatch : Type := RMatch { group1 : string; after : string }.

(** The part of [s1] that precedes its suffix [s2]. *)
Definition consumed (s1 s2 : string) : string :=
  substring 0 (String.length s1 - String.length s2) s1.

(** An anchored match at the start of [s]. *)
Definition match_here (pat : pattern) (s : string) : option rmatch :=
  match_atoms (pre pat) s (fun s1 =>
    match_atoms (grp pat) s1 (fun s2 =>
      match_atoms (post pat) s2 (fun s3 =>
        Some {| group1 := consumed s1 s2; after := s3 |}))).

(** [re.search(pat, s, re.IGNORECASE | re.DOTALL)] *)
Fixpoint search (pat : pattern) (s : string) : option rmatch :=
  match match_here pat s with
  | Some m => Some m
  | None =>
      match s with
      | EmptyString => None
      | String _ s' => search pat s'
      end
  end.

(** [re.finditer]: the successive non-overlapping matches.  The patterns
    given to [finditer] by the source start with a literal label, so no
    match is empty; after an empty match the scan moves on by one
    character. *)
Fixpoint finditer_fuel (fuel : nat) (pat : pattern) (s : string) : list rmatch :=
  match fuel with
  | O => []
  | S fuel' =>
      match search pat s with
      | None => []
      | Some m =>
          m :: (if (String.length (after m) <? String.length s)%nat
                then finditer_fuel fuel' pat (after m)
                else match s with
                     | String _ s' => finditer_fuel fuel' pat s'
                     | EmptyString => []
                     end)
      end
  end.

Definition finditer (pat : pattern) (s : string) : list rmatch :=
  finditer_fuel (S (String.length s)) pat s.

(** The texts a sequence of atoms can consume, declaratively. *)
Inductive Accepts : list atom → string → Prop :=
| Accepts_nil : Accepts [] EmptyString
| Accepts_lit c x w rest :
    lit_eq c x = true → Accepts rest w → Accepts (Lit c :: rest) (String x w)
| Accepts_cls p x w rest :
    p x = true → Accepts rest w → Accepts (Cls p :: rest) (String x w)
| Accepts_rep g lo hi p u w rest :
    forallb_str p u = true →
    (lo ≤ String.length u)%nat →
    (∀ h, hi = Some h → (String.length u ≤ h)%nat) →
    Accepts rest w →
    Accepts (Rep g lo hi p :: rest) (u +:+ w).

End Re.


(** ** The extraction engine ([scraper_by_scl.py]) *)

Module Scraper.
Import PyStr Re.

(** *** Characters and character classes of the patterns *)

Definition e_acute : ascii := "233"%char.
Definition e_grave : ascii := "232"%char.
Definition degree : ascii := "176"%char.

Definition is_char (a c : ascii) : bool := Ascii.eqb c a.

(** [[°\s]] *)
Definition c_deg_space (c : ascii) : bool := is_char degree c || isspace c.
(** [[:\s]] *)
Definition c_colon_space (c : ascii) : bool := is_char ":" c || isspace c.
(** [[^>]] *)
Definition c_not_gt (c : ascii) : bool := negb (is_char ">" c).
(** [[^<]] *)
Definition c_not_lt (c : ascii) : bool := negb (is_char "<" c).
(** [[^<\n]] *)
Definition c_not_lt_nl (c : ascii) : bool :=
  negb (is_char "<" c || is_char "010" c).
(** [[^\s<>]] *)
Definition c_not_space_angle (c : ascii) : bool :=
  negb (isspace c || is_char "<" c || is_char ">" c).
(** [[A-Z]] and [[a-zA-Z]] under [re.IGNORECASE]: the lower-cased character
    is looked up in the lower-cased set. *)
Definition c_letter (c : ascii) : bool := in_range 97 122 (lower_char c).
(** [[A-Z\s\.\-\']] under [re.IGNORECASE] *)
Definition c_name (c : ascii) : bool :=
  let l := lower_char c in
  in_range 97 122 l || isspace l || is_char "." l || is_char "-" l
  || is_char "'" l.
(** [[a-zA-Z0-9._-]] under [re.IGNORECASE] *)
Definition c_mail_local (c : ascii) : bool :=
  let l := lower_char c in
  in_range 97 122 l || in_range 48 57 l || is_char "." l || is_char "_" l
  || is_char "-" l.
(** [[a-zA-Z0-9.-]] under [re.IGNORECASE] *)
Definition c_mail_domain (c : ascii) : bool :=
  let l := lower_char c in
  in_range 97 122 l || in_range 48 57 l || is_char "." l || is_char "-" l.
(** [[0-9\s\.\-\(\)]] *)
Definition c_phone (c : ascii) : bool :=
  in_range 48 57 c || isspace c || is_char "." c || is_char "-" c
  || is_char "(" c || is_char ")" c.

(** *** Data *)

(** [ClubData] *)
Record ClubData : Type := mkClubData
  { nom : string;
    numero_affiliation : option string;
    email : option string;
    telephone : option string;
    adresse : option string;
    url_detail : option string;
    email_officiel : option string;
    email_principal : option string }.

(** What the rendering session exposes for the page of one key, once the
    navigation has succeeded.  [inner_text()] values are given as the
    browser returns them (the code strips them).  Vertical positions are
    the [y] of [bounding_box()], [None] when there is no box. *)
Record Page : Type := mkPage
  { content : string;
      (* page.content() *)
    h1_texts : list string;
      (* query_selector_all('app-club h1, .club-title h1, h1') *)
    affil_y : option Z;
      (* bounding box of query_selector('text=/N[°\s]*affiliation/i'),
         None when the element or its box is missing; positions are
         taken as integers, only compared and subtracted *)
    h2_elems : list (string * option Z);
      (* query_selector_all('h2'): inner text and bounding box *)
    other_texts : list (list string);
      (* inner texts for each selector of [nom_selectors], in order *)
    title : string;
      (* page.title() *)
    siege_address : option string
      (* outcome of the structured address look-up (lines 492-513), None
         when it finds nothing or raises *) }.

(** Python's [a or b] on optional strings. *)
Definition py_or (a b : option string) : option string :=
  match a with
  | Some s => if truthy s then a else b
  | None => b
  end.

(** *** Step 1: the affiliation marker *)

(** [r'N[°\s]*affiliation[:\s]*(\d+)'] *)
Definition affil_pattern : pattern :=
  {| pre := [Lit "N"; star c_deg_space] ++ lits "affiliation" ++ [star c_colon_space];
     grp := [plus isdecimal];
     post := [] |}.

(** *** Step 2: the name *)

(** The test shared by the heading strategies:
    ['district de la' in t or ('district de' in t and 'club district' not in t)] *)
Definition district_heading (t : string) : bool :=
  contains "district de la" t
  || (contains "district de" t && negb (contains "club district" t)).

(** **** Strategy 1: the h1 headings (lines 121-147) *)

Definition excluded_h1 : list string :=
  ["accueil"; "gironde"; "paris"; "ensemble"; String e_acute "crivons"].

Definition h1_is_excluded (text_lower : string) : bool :=
  let is_excluded := contains_any excluded_h1 text_lower in
  let is_excluded := if district_heading text_lower then true else is_excluded in
  if contains "club ligue" text_lower then false else is_excluded.

Definition accept_h1 (text : string) : bool :=
  truthy text && (5 <? len text) && (len text <? 100)
  && negb (h1_is_excluded (lower text))
  && any_alpha text.

Definition strategy_h1 (p : Page) : option string :=
  List.find accept_h1 (map strip (h1_texts p)).

(** **** Strategy 2: patterns on the raw markup (lines 150-190) *)

Definition excluded_regex : list string :=
  ["accueil"; "gironde"; "paris"; "ensemble"; String e_acute "crivons";
   "r" +:+ String e_acute "sultats"; "calendrier"].

(** [[A-Z][A-Z\s\.\-\']{5,80}?] *)
Definition name_group : list atom := [Cls c_letter; Rep false 5 (Some 80%nat) c_name].

(** [N[°\s]*affiliation] *)
Definition affil_label : list atom :=
  [Lit "N"; star c_deg_space] ++ lits "affiliation".

Definition nom_patterns : list pattern :=
  [ (* <h1[^>]*>(...)</h1>\s*<h2[^>]*>N[°\s]*affiliation *)
    {| pre := lits "<h1" ++ [star c_not_gt; Lit ">"];
       grp := name_group;
       post := lits "</h1>" ++ [star isspace] ++ lits "<h2"
               ++ [star c_not_gt; Lit ">"] ++ affil_label |};
    (* <h2[^>]*>(...)</h2>\s*N[°\s]*affiliation[:\s]*\d+ *)
    {| pre := lits "<h2" ++ [star c_not_gt; Lit ">"];
       grp := name_group;
       post := lits "</h2>" ++ [star isspace] ++ affil_label
               ++ [star c_colon_space; plus isdecimal] |};
    (* (...)\s*N[°\s]*affiliation[:\s]*\d+ *)
    {| pre := [];
       grp := name_group;
       post := [star isspace] ++ affil_label
               ++ [star c_colon_space; plus isdecimal] |} ].

(** The loop of lines 172-183 over [excluded_words]. *)
Fixpoint regex_is_excluded (words : list string) (t : string) : bool :=
  match words with
  | [] => false
  | word :: words' =>
      if contains word t then
        if String.eqb word "district"
           && (contains "district de la" t
               || (contains "district de" t && negb (contains "club district" t)))
        then true
        else if negb (String.eqb word "district") then true
        else regex_is_excluded words' t
      else regex_is_excluded words' t
  end.

Definition accept_regex (potential_nom : string) : bool :=
  (5 <? len potential_nom) && (len potential_nom <? 100)
  && negb (regex_is_excluded excluded_regex (lower potential_nom))
  && any_alpha potential_nom
  && ((1 <? count_words potential_nom) || (8 <? len potential_nom)).

(** The candidate a pattern proposes: [match.group(1).strip()]. *)
Definition regex_candidate (pat : pattern) (page_text : string) : option string :=
  (fun m => strip (group1 m)) <$> search pat page_text.

Fixpoint strategy_regex_from (pats : list pattern) (page_text : string) : option string :=
  match pats with
  | [] => None
  | pat :: pats' =>
      match regex_candidate pat page_text with
      | Some potential_nom =>
          if accept_regex potential_nom then Some potential_nom
          else strategy_regex_from pats' page_text
      | None => strategy_regex_from pats' page_text
      end
  end.

Definition strategy_regex (p : Page) : option string :=
  strategy_regex_from nom_patterns (content p).

(** **** Strategy 3: the h2 closest above the marker (lines 195-246) *)

Definition excluded_near : list string :=
  ["accueil"; "ligue"; "gironde"; "paris"; "ensemble"; String e_acute "crivons";
   "r" +:+ String e_acute "sultats"; "calendrier";
   String e_acute "quipes"; "staff"; "terrains";
   "si" +:+ String e_grave "ge social"].

(** One step of the loop of lines 210-219: [best] is
    [(min_distance, closest_h2)], absent while [min_distance] is infinite. *)
Definition closer (affil_y : Z) (best : option (Z * string))
           (h2 : string * option Z) : option (Z * string) :=
  match snd h2 with
  | Some h2_y =>
      if (h2_y <? affil_y) && (affil_y - h2_y <? 300) then
        let distance := affil_y - h2_y in
        match best with
        | Some (min_distance, _) =>
            if distance <? min_distance then Some (distance, fst h2) else best
        | None => Some (distance, fst h2)
        end
      else best
  | None => best
  end.

Definition closest_h2 (affil_y : Z) (all_h2 : list (string * option Z)) : option string :=
  snd <$> fold_left (closer affil_y) all_h2 None.

Definition near_is_excluded (text_lower : string) : bool :=
  let is_excluded := contains_any excluded_near text_lower in
  if contains "district de la" text_lower || contains "district de" text_lower
  then (if negb (contains "club district" text_lower) then true else is_excluded)
  else is_excluded.

Definition accept_near (text : string) : bool :=
  truthy text && (5 <? len text) && (len text <? 100)
  && negb (near_is_excluded (lower text))
  && any_alpha text
  && ((1 <? count_words text) || (8 <? len text)).

Definition strategy_near (p : Page) : option string :=
  match affil_y p with
  | Some y =>
      match closest_h2 y (h2_elems p) with
      | Some inner =>
          let text := strip inner in
          if accept_near text then Some text else None
      | None => None
      end
  | None => None
  end.

(** **** Strategy 4: all h2 headings (lines 249-274) *)

Definition excluded_h2 : list string :=
  ["accueil"; "ligue"; "gironde"; "paris"; "ensemble"; String e_acute "crivons";
   "n" +:+ String degree "affiliation"; "r" +:+ String e_acute "sultats";
   "calendrier"; String e_acute "quipes"; "staff"; "terrains";
   "si" +:+ String e_grave "ge social"; "installations"; "rencontres";
   "prochaines"; "derni" +:+ String e_grave "res"].

Definition h2_is_navigation (text_lower : string) : bool :=
  let is_navigation := contains_any excluded_h2 text_lower in
  if district_heading text_lower then true else is_navigation.

Definition accept_h2 (text : string) : bool :=
  truthy text && (5 <? len text) && (len text <? 100)
  && negb (h2_is_navigation (lower text))
  && any_alpha text
  && ((1 <? count_words text) || (8 <? len text)).

Definition strategy_h2 (p : Page) : option string :=
  List.find accept_h2 (map (fun h2 => strip (fst h2)) (h2_elems p)).

(** **** Strategy 5: other elements (lines 277-313) *)

Definition other_is_excluded (text_lower : string) : bool :=
  let is_excluded := contains_any excluded_near text_lower in
  if district_heading text_lower then true else is_excluded.

Definition accept_other (text : string) : bool :=
  truthy text && (5 <? len text) && (len text <? 100)
  && negb (other_is_excluded (lower text))
  && any_alpha text
  && ((1 <? count_words text) || (8 <? len text)).

Definition strategy_other (p : Page) : option string :=
  List.find accept_other (map strip (concat (other_texts p))).

(** **** Strategy 6: the page title (lines 316-326) *)

(** [re.split(r'[|\-]', title)[0]] *)
Fixpoint title_head (s : string) : string :=
  match s with
  | EmptyString => EmptyString
  | String c s' =>
      if is_char "|" c || is_char "-" c then EmptyString
      else String c (title_head s')
  end.

Definition accept_title (potential_nom : string) : bool :=
  (5 <? len potential_nom)
  && negb (contains "recherche" (lower potential_nom))
  && negb (contains "district" (lower potential_nom)).

Definition strategy_title (p : Page) : option string :=
  if truthy (title p) then
    let potential_nom := strip (title_head (title p)) in
    if accept_title potential_nom then Some potential_nom else None
  else None.

(** The first strategy that yields a name ([if not nom:] chain). *)
Definition or_else (a : option string) (b : option string) : option string :=
  match a with Some _ => a | None => b end.

Definition derive_nom (p : Page) : option string :=
  or_else (strategy_h1 p)
    (or_else (strategy_regex p)
       (or_else (or_else (strategy_near p)
                   (or_else (strategy_h2 p) (strategy_other p)))
          (strategy_title p))).

(** *** Step 4: the e-mail (lines 343-390) *)

(** [[a-zA-Z0-9._-]+@[a-zA-Z0-9.-]+\.[a-zA-Z]{2,}] *)
Definition strict_mail : list atom :=
  [plus c_mail_local; Lit "@"; plus c_mail_domain; Lit "."; Rep true 2 None c_letter].

(** [[^\s<>]+@[^\s<>]+] *)
Definition loose_mail : list atom :=
  [plus c_not_space_angle; Lit "@"; plus c_not_space_angle].

(** The three variants for a label: plain, emphasized ([<b>label</b>]) and
    loose. *)
Definition mail_plain (label : string) : pattern :=
  {| pre := lits label ++ [star c_colon_space]; grp := strict_mail; post := [] |}.
Definition mail_bold (label : string) : pattern :=
  {| pre := lits "<b>" ++ lits label ++ lits "</b>"
            ++ [star isspace; Lit ":"; star isspace];
     grp := strict_mail; post := [] |}.
Definition mail_loose (label : string) : pattern :=
  {| pre := lits label ++ [star c_colon_space]; grp := loose_mail; post := [] |}.

Definition email_patterns_principal : list pattern :=
  [mail_plain "Email principal"; mail_bold "Email principal";
   mail_loose "Email principal"].
Definition email_patterns_officiel : list pattern :=
  [mail_plain "Email officiel"; mail_bold "Email officiel"].
Definition email_patterns_autre : list pattern :=
  [mail_plain "Email autre"; mail_bold "Email autre"; mail_loose "Email autre"].

(** [for pattern in patterns: match = re.search(...); if match: ...; break]:
    the match of the first pattern that matches. *)
Fixpoint first_match (pats : list pattern) (page_text : string) : option rmatch :=
  match pats with
  | [] => None
  | pat :: pats' =>
      match search pat page_text with
      | Some m => Some m
      | None => first_match pats' page_text
      end
  end.

Definition find_email_principal (page_text : string) : option string :=
  (fun m => strip (group1 m)) <$> first_match email_patterns_principal page_text.

Definition find_email_officiel (page_text : string) : option string :=
  (fun m => strip (group1 m)) <$> first_match email_patterns_officiel page_text.

(** The raw "other" value, [emails_str = match.group(1).strip()]. *)
Definition find_emails_str (page_text : string) : option string :=
  (fun m => strip (group1 m)) <$> first_match email_patterns_autre page_text.

(** [email_autre = emails_str.split(',')[0].strip()] *)
Definition find_email_autre (page_text : string) : option string :=
  (fun emails_str => strip (first_token "," emails_str)) <$> find_emails_str page_text.

(** [email = email_principal or email_officiel or email_autre] *)
Definition find_email (page_text : string) : option string :=
  py_or (py_or (find_email_principal page_text) (find_email_officiel page_text))
        (find_email_autre page_text).

(** *** Step 5: the telephone (lines 392-487) *)

Definition phone_group : list atom := [Rep true 6 None c_phone].

Definition phone_patterns (label : string) : list pattern :=
  [ {| pre := lits label ++ [star isspace; Lit ":"; star isspace];
       grp := phone_group; post := [] |};
    {| pre := lits "<b>" ++ lits label ++ lits "</b>"
              ++ [star isspace; Lit ":"; star isspace];
       grp := phone_group; post := [] |};
    {| pre := lits label ++ [plus c_colon_space];
       grp := phone_group; post := [] |} ].

Definition telephone_word : string :=
  "T" +:+ String e_acute ("l" +:+ String e_acute "phone").

Definition phone_patterns_travail := phone_patterns (telephone_word +:+ " travail").
Definition phone_patterns_domicile := phone_patterns (telephone_word +:+ " domicile").
Definition phone_patterns_mobile := phone_patterns "Mobile personnel".
Definition phone_patterns_autre := phone_patterns (telephone_word +:+ " autre").

Definition phone_patterns_generic : list pattern :=
  [ {| pre := lits telephone_word ++ [star isspace; Lit ":"; star isspace];
       grp := phone_group; post := [] |};
    {| pre := lits "Tel" ++ [star isspace; Lit ":"; star isspace];
       grp := phone_group; post := [] |} ].

(** [phone_clean = re.sub(r'[^\d]', '', match.group(1).strip())] *)
Definition phone_clean (m : rmatch) : string := keep_decimal (strip (group1 m)).

(** [len(phone_clean) >= 6] *)
Definition phone_ok (phone : string) : bool := 6 <=? len phone.

(** The loops over [re.search] (work, home, mobile, generic): the cleaned
    value of the first pattern whose match has at least six digits. *)
Fixpoint search_phone (pats : list pattern) (page_text : string) : option string :=
  match pats with
  | [] => None
  | pat :: pats' =>
      match search pat page_text with
      | Some m =>
          if phone_ok (phone_clean m) then Some (phone_clean m)
          else search_phone pats' page_text
      | None => search_phone pats' page_text
      end
  end.

(** The loop over [re.finditer] for "other" (lines 456-468): for each
    pattern, the first match with at least six digits. *)
Fixpoint search_phone_all (pats : list pattern) (page_text : string) : option string :=
  match pats with
  | [] => None
  | pat :: pats' =>
      match List.find phone_ok (map phone_clean (finditer pat page_text)) with
      | Some phone => Some phone
      | None => search_phone_all pats' page_text
      end
  end.

Definition telephone_travail (t : string) := search_phone phone_patterns_travail t.
Definition telephone_domicile (t : string) := search_phone phone_patterns_domicile t.
Definition mobile_personnel (t : string) := search_phone phone_patterns_mobile t.
Definition telephone_autre_labelled (t : string) := search_phone_all phone_patterns_autre t.

Definition truthy_opt (o : option string) : bool :=
  match o with Some s => truthy s | None => false end.

(** The guard of line 471:
    [not telephone_travail and not telephone_domicile and
     not mobile_personnel and not telephone_autre]. *)
Definition no_labelled_phone (t : string) : bool :=
  negb (truthy_opt (telephone_travail t))
  && negb (truthy_opt (telephone_domicile t))
  && negb (truthy_opt (mobile_personnel t))
  && negb (truthy_opt (telephone_autre_labelled t)).

(** The generic patterns of lines 472-484, which assign [telephone_autre]. *)
Definition telephone_generic (t : string) : option string :=
  search_phone phone_patterns_generic t.

(** [telephone_autre] after line 484: the generic label is consulted only
    under the guard, and a value it finds replaces [telephone_autre]. *)
Definition telephone_autre (t : string) : option string :=
  if no_labelled_phone t then
    match telephone_generic t with
    | Some phone => Some phone
    | None => telephone_autre_labelled t
    end
  else telephone_autre_labelled t.

(** [telephone = telephone_travail or telephone_domicile or mobile_personnel
                 or telephone_autre] *)
Definition find_telephone (t : string) : option string :=
  py_or (py_or (py_or (telephone_travail t) (telephone_domicile t))
               (mobile_personnel t))
        (telephone_autre t).

(** *** Step 6: the address (lines 489-531) *)

Definition address_patterns : list pattern :=
  [ (* <b>Adresse\s*:</b>\s*<span[^>]*>([^<]+)</span> *)
    {| pre := lits "<b>Adresse" ++ [star isspace] ++ lits ":</b>" ++ [star isspace]
              ++ lits "<span" ++ [star c_not_gt; Lit ">"];
       grp := [plus c_not_lt];
       post := lits "</span>" |};
    (* Adresse\s*:\s*([^<\n]+(?:-\s*\d{5}\s*-\s*[A-Z\s]+)?): the optional
       tail can only start where the greedy run before it has stopped, on a
       character that is not a dash, so it always matches the empty text *)
    {| pre := lits "Adresse" ++ [star isspace; Lit ":"; star isspace];
       grp := [plus c_not_lt_nl];
       post := [] |};
    (* Siège social[:\s]*([^<]+) *)
    {| pre := lits ("Si" +:+ String e_grave "ge social") ++ [star c_colon_space];
       grp := [plus c_not_lt];
       post := [] |} ].

Fixpoint has_char (a : ascii) (s : string) : bool :=
  match s with
  | EmptyString => false
  | String c s' => is_char a c || has_char a s'
  end.

(** [re.sub(r'<[^>]+>', '', s)]: [intag] holds while the characters of a
    matched tag are being dropped. *)
Fixpoint remove_tags_from (intag : bool) (s : string) : string :=
  match s with
  | EmptyString => EmptyString
  | String c s' =>
      if intag then remove_tags_from (negb (is_char ">" c)) s'
      else if is_char "<" c
              && match s' with
                 | String d s'' => negb (is_char ">" d) && has_char ">" s''
                 | EmptyString => false
                 end
      then remove_tags_from true s'
      else String c (remove_tags_from false s')
  end.

(** [re.sub(r'\s+', ' ', s)] *)
Fixpoint collapse_spaces_from (prev_space : bool) (s : string) : string :=
  match s with
  | EmptyString => EmptyString
  | String c s' =>
      if isspace c then
        if prev_space then collapse_spaces_from true s'
        else String " " (collapse_spaces_from true s')
      else String c (collapse_spaces_from false s')
  end.

Definition clean_address (g : string) : string :=
  collapse_spaces_from false (strip (remove_tags_from false g)).

(** The loop of lines 524-531: [adresse] is overwritten by every pattern
    that matches, and the loop stops at a value longer than 10. *)
Fixpoint address_fallback (pats : list pattern) (page_text : string)
         (adresse : option string) : option string :=
  match pats with
  | [] => adresse
  | pat :: pats' =>
      match search pat page_text with
      | Some m =>
          let a := clean_address (group1 m) in
          if 10 <? len a then Some a
          else address_fallback pats' page_text (Some a)
      | None => address_fallback pats' page_text adresse
      end
  end.

Definition find_adresse (p : Page) : option string :=
  match siege_address p with
  | Some a => if truthy a then Some a
              else address_fallback address_patterns (content p) (Some a)
  | None => address_fallback address_patterns (content p) None
  end.

(** *** The engine on a rendered page (lines 106-544) *)

Definition extract_from_page (url : string) (p : Page) : option ClubData :=
  match search affil_pattern (content p) with
  | None => None
  | Some affil_match =>
      let numero := group1 affil_match in
      match derive_nom p with
      | None => None
      | Some nom =>
          let club_data :=
            {| nom := nom;
               numero_affiliation := Some numero;
               email := find_email (content p);
               telephone := find_telephone (content p);
               adresse := find_adresse p;
               url_detail := Some url;
               email_officiel := find_email_officiel (content p);
               email_principal := find_email_principal (content p) |} in
          if String.eqb numero "0" && truthy nom then Some club_data
          else if negb (truthy numero) then None
          else Some club_data
      end
  end.

(** *** Exceptions and the navigation (lines 88-106, 546-550) *)

Inductive exn : Type :=
| KeyboardInterrupt   (* a BaseException that is not an Exception *)
| TimeoutError        (* an Exception *)
| OtherError.         (* any other Exception *)

Definition is_Exception (e : exn) : bool :=
  match e with KeyboardInterrupt => false | _ => true end.

Inductive outcome (A : Type) : Type :=
| Returns (a : A)
| Raises (e : exn).
Arguments Returns {A} a.
Arguments Raises {A} e.

(** What the rendering session does for one key: the first [page.goto], the
    second [page.goto] (only attempted when the first fails) and the
    rendered page read afterwards (the settle delay and [page.content()]
    may themselves raise). *)
Record Session : Type := mkSession
  { goto_first : outcome unit;
    goto_retry : outcome unit;
    rendered : outcome Page }.

(** [f"{base_url}/recherche-clubs?scl={scl}"] *)
Definition url_of (base_url : string) (scl : Z) : string :=
  base_url +:+ "/recherche-clubs?scl=" +:+ str_of_Z scl.

Definition default_base_url : string := "https://gironde.fff.fr".

(** The body that follows a successful navigation, under the outer
    [try ... except Exception: return None]. *)
Definition after_goto (url : string) (s : Session) : outcome (option ClubData) :=
  match rendered s with
  | Returns p => Returns (extract_from_page url p)
  | Raises e => if is_Exception e then Returns None else Raises e
  end.

(** [SCLScraper.extract_club_by_scl].  The first [goto] is guarded by
    [except Exception], the retry by a bare [except:]. *)
Definition extract_club_by_scl (s : Session) (scl : Z) : outcome (option ClubData) :=
  let url := url_of default_base_url scl in
  match goto_first s with
  | Returns _ => after_goto url s
  | Raises e =>
      if is_Exception e then
        match goto_retry s with
        | Returns _ => after_goto url s
        | Raises _ => Returns None
        end
      else Raises e
  end.

End Scraper.


(** ** The durable output and the two drivers *)

Module Store.
Import PyStr Scraper.

(** One row of the durable output, as [csv.DictReader] yields it and as
    [csv.DictWriter] takes it: the columns of the output schema.  A column
    that is missing from a file reads as absent, and the drivers treat an
    absent cell and an empty cell alike, so an absent cell is the empty
    string here. *)
Record Row : Type := mkRow
  { col_scl : string;
    col_nom : string;
    col_numero_affiliation : string;
    col_email : string;
    col_telephone : string;
    col_adresse : string;
    col_url_detail : string;
    col_temps_extraction : string }.

(** A CSV file: its header line and its rows. *)
Record CsvFile : Type := mkCsv { header : list string; rows : list Row }.

Definition fieldnames_range : list string :=
  ["scl"; "nom"; "numero_affiliation"; "email"; "telephone"; "adresse";
   "url_detail"; "temps_extraction"].

Definition fieldnames_all : list string :=
  ["scl"; "nom"; "numero_affiliation"; "email"; "telephone"; "adresse";
   "url_detail"].

(** [value or ''] *)
Definition or_empty (o : option string) : string :=
  match o with Some s => s | None => EmptyString end.

(** *** Overwrite-by-key mode: [scrape_range] *)

(** The row stored for a club that was found (lines 80-89). *)
Definition found_row (scl : Z) (club : ClubData) (club_time : string) : Row :=
  {| col_scl := str_of_Z scl;
     col_nom := nom club;
     col_numero_affiliation := or_empty (numero_affiliation club);
     col_email := or_empty (email club);
     col_telephone := or_empty (telephone club);
     col_adresse := or_empty (adresse club);
     col_url_detail := or_empty (url_detail club);
     col_temps_extraction := club_time |}.

(** The placeholder stored when no club was found (lines 101-110). *)
Definition empty_row (scl : Z) (club_time : string) : Row :=
  {| col_scl := str_of_Z scl;
     col_nom := "";
     col_numero_affiliation := "";
     col_email := "";
     col_telephone := "";
     col_adresse := "";
     col_url_detail := "";
     col_temps_extraction := club_time |}.

(** The key under which [scrape_range] files a row it reads (lines 49-51):
    [None] when the row is skipped, [Some None] when [int] raises. *)
Definition range_key (row : Row) : option (option Z) :=
  let scl_key := strip (col_scl row) in
  if truthy scl_key && isdigit scl_key then Some (int_of_str scl_key) else None.

(** The reading loop of lines 48-51; [None] when an exception escapes it. *)
Fixpoint load_rows (rs : list Row) (existing_data : gmap Z Row) : option (gmap Z Row) :=
  match rs with
  | [] => Some existing_data
  | row :: rs' =>
      match range_key row with
      | Some (Some k) => load_rows rs' (<[k := row]> existing_data)
      | Some None => None
      | None => load_rows rs' existing_data
      end
  end.

(** [existing_data] after lines 41-54: empty when there is no file and when
    reading it raised. *)
Definition read_existing (prior : option CsvFile) : gmap Z Row :=
  match prior with
  | Some f => default ∅ (load_rows (rows f) ∅)
  | None => ∅
  end.

(** The loop of lines 63-120 over the keys still to visit.  [scrape scl] is
    what the body of the [try] does for [scl] up to the point where the row
    is stored; [club_time scl] is the formatted duration. *)
Fixpoint scrape_loop (scrape : Z → outcome (option ClubData)) (club_time : Z → string)
         (scl_list : list Z) (all_data : gmap Z Row) : gmap Z Row :=
  match scl_list with
  | [] => all_data
  | scl :: rest =>
      match scrape scl with
      | Returns (Some club) =>
          scrape_loop scrape club_time rest
            (<[scl := found_row scl club (club_time scl)]> all_data)
      | Returns None =>
          scrape_loop scrape club_time rest
            (<[scl := empty_row scl (club_time scl)]> all_data)
      | Raises e =>
          if is_Exception e then scrape_loop scrape club_time rest all_data
          else all_data   (* except KeyboardInterrupt: break *)
      end
  end.

(** [sorted(all_data.keys())] *)
Definition sorted_keys (all_data : gmap Z Row) : list Z :=
  merge_sort Z.le (elements (dom all_data)).

(** [list(range(start_scl, end_scl + 1))] *)
Definition scl_range (start_scl end_scl : Z) : list Z :=
  seqZ start_scl (end_scl + 1 - start_scl).

(** The merged map when the loop is left. *)
Definition merged_data (start_scl end_scl : Z) (prior : option CsvFile)
           (scrape : Z → outcome (option ClubData)) (club_time : Z → string) : gmap Z Row :=
  scrape_loop scrape club_time (scl_range start_scl end_scl) (read_existing prior).

(** The file written by lines 123-130. *)
Definition write_all (all_data : gmap Z Row) : CsvFile :=
  {| header := fieldnames_range;
     rows := omap (λ scl_key, all_data !! scl_key) (sorted_keys all_data) |}.

Definition scrape_range (start_scl end_scl : Z) (prior : option CsvFile)
           (scrape : Z → outcome (option ClubData)) (club_time : Z → string) : CsvFile :=
  write_all (merged_data start_scl end_scl prior scrape club_time).

(** The key a row of a file stands for: the integer its [scl] cell
    denotes. *)
Definition row_key (row : Row) : option Z := int_of_str (col_scl row).

(** The rows of a file that stand for key [k]. *)
Definition rows_of_key (f : CsvFile) (k : Z) : list Row :=
  filter (λ row, row_key row = Some k) (rows f).



(** *** Append mode: [scrape_all_to_csv] *)



(** The reading loop of lines 38-40: the keys collected, and whether the
    loop ended without an exception. *)
Fixpoint scan_scls (rs : list Row) (existing_scls : gset Z) : gset Z * bool :=
  match rs with
  | [] => (existing_scls, true)
  | row :: rs' =>
      if truthy (col_scl row) then
        match int_of_str (col_scl row) with
        | Some k => scan_scls rs' ({[k]} ∪ existing_scls)
        | None => (existing_scls, false)
        end
      else scan_scls rs' existing_scls
  end.

(** [max(l)] for a non-empty list. *)
Definition max_Z (l : list Z) : option Z :=
  match l with
  | [] => None
  | x :: l' => Some (foldr Z.max x l')
  end.

(** Lines 31-46: [existing_scls] and the key the scan starts from. *)
Definition resume_state (prior : option CsvFile) (resume_from : Z) : gset Z * Z :=
  match prior with
  | Some f =>
      if resume_from =? 1 then
        let '(existing_scls, completed) := scan_scls (rows f) ∅ in
        if completed then
          match max_Z (elements existing_scls) with
          | Some N => (existing_scls, N + 1)
          | None => (existing_scls, resume_from)
          end
        else (existing_scls, resume_from)
      else (∅, resume_from)
  | None => (∅, resume_from)
  end.

(** [range(resume_from, max_scl + 1, batch_size)]; a batch size that is not
    positive visits no key. *)
Definition batch_starts (resume_from max_scl batch_size : Z) : list Z :=
  if 0 <? batch_size then
    (λ i, resume_from + i * batch_size) <$>
      seqZ 0 ((max_scl + 1 - resume_from + batch_size - 1) / batch_size)
  else [].

(** [range(start_scl, end_scl + 1)] with
    [end_scl = min(start_scl + batch_size - 1, max_scl)]. *)
Definition batch_keys (max_scl batch_size start_scl : Z) : list Z :=
  seqZ start_scl (Z.min (start_scl + batch_size - 1) max_scl + 1 - start_scl).

(** The keys in the order the two nested loops of lines 74-83 visit them. *)
Definition visited_keys (resume_from max_scl batch_size : Z) : list Z :=
  concat (batch_keys max_scl batch_size <$> batch_starts resume_from max_scl batch_size).

(** The row written for a club (lines 93-101). *)
Definition club_row (scl : Z) (club : ClubData) : Row :=
  {| col_scl := str_of_Z scl;
     col_nom := nom club;
     col_numero_affiliation := or_empty (numero_affiliation club);
     col_email := or_empty (email club);
     col_telephone := or_empty (telephone club);
     col_adresse := or_empty (adresse club);
     col_url_detail := or_empty (url_detail club);
     col_temps_extraction := "" |}.

(** How a run of the append driver ends. *)
Record Run : Type := mkRun
  { written : list Row;     (* rows written and flushed, in order *)
    fetched : list Z;       (* keys given to the extraction engine, in order *)
    interrupted : bool }.   (* left through [except KeyboardInterrupt: return] *)

(** The body of the loops (lines 83-120) over the keys still to visit. *)
Fixpoint append_loop (scrape : Z → outcome (option ClubData)) (existing_scls : gset Z)
         (keys : list Z) (r : Run) : Run :=
  match keys with
  | [] => r
  | scl :: rest =>
      if decide (scl ∈ existing_scls) then append_loop scrape existing_scls rest r
      else
        let fetched' := (fetched r ++ [scl])%list in
        match scrape scl with
        | Returns (Some club_data) =>
            append_loop scrape existing_scls rest
              {| written := (written r ++ [club_row scl club_data])%list;
                 fetched := fetched'; interrupted := false |}
        | Returns None =>
            append_loop scrape existing_scls rest
              {| written := written r; fetched := fetched'; interrupted := false |}
        | Raises e =>
            if is_Exception e then
              append_loop scrape existing_scls rest
                {| written := written r; fetched := fetched'; interrupted := false |}
            else {| written := written r; fetched := fetched'; interrupted := true |}
        end
  end.

Definition run_all (max_scl batch_size : Z) (prior : option CsvFile) (resume_from : Z)
           (scrape : Z → outcome (option ClubData)) : Run :=
  let '(existing_scls, resume_from') := resume_state prior resume_from in
  append_loop scrape existing_scls (visited_keys resume_from' max_scl batch_size)
    {| written := []; fetched := []; interrupted := false |}.

(** The output file when [scrape_all_to_csv] has ended: opened in mode ['a']
    when the file existed and keys were read from it (line 60), otherwise
    created afresh with the header line. *)
Definition scrape_all_to_csv (max_scl batch_size : Z) (prior : option CsvFile)
           (resume_from : Z) (scrape : Z → outcome (option ClubData)) : CsvFile :=
  let new_rows := written (run_all max_scl batch_size prior resume_from scrape) in
  match prior with
  | Some f =>
      if decide (fst (resume_state prior resume_from) = ∅)
      then {| header := fieldnames_all; rows := new_rows |}
      else {| header := header f; rows := (rows f ++ new_rows)%list |}
  | None => {| header := fieldnames_all; rows := new_rows |}
  end.

(** Every row of the map is filed under the key its [scl] cell denotes. *)
Definition key_inv (m : gmap Z Row) : Prop :=
  ∀ k row, m !! k = Some row → row_key row = Some k.

(** The row [scrape_range] stores for a key whose processing returns. *)
Definition new_row (scl : Z) (result : option ClubData) (t : string) : Row :=
  match result with
  | Some club => found_row scl club t
  | None => empty_row scl t
  end.

(** The engine run on what the rendering session does for each key. *)
Definition engine (web : Z → Session) : Z → outcome (option ClubData) :=
  λ scl, extract_club_by_scl (web scl) scl.

End Store.


(** ** The other entry points of the scraper *)

Module Entry.
Import PyStr Re Scraper Store.

(** *** [SCLScraper.scrape_range] ([scraper_by_scl.py], lines 552-584) *)

(** The loop of lines 571-581.  The progress test
    [(scl - start_scl) % progress_interval] raises [ZeroDivisionError] for a
    zero interval; an exception of the engine is not caught. *)
Fixpoint collect_clubs (scrape : Z → outcome (option ClubData)) (progress_interval : Z)
         (keys : list Z) (clubs_data : list ClubData) : outcome (list ClubData) :=
  match keys with
  | [] => Returns clubs_data
  | scl :: rest =>
      if progress_interval =? 0 then Raises OtherError
      else
        match scrape scl with
        | Returns (Some club_data) =>
            collect_clubs scrape progress_interval rest (clubs_data ++ [club_data])%list
        | Returns None => collect_clubs scrape progress_interval rest clubs_data
        | Raises e => Raises e
        end
  end.

Definition scraper_scrape_range (scrape : Z → outcome (option ClubData))
           (start_scl end_scl progress_interval : Z) : outcome (list ClubData) :=
  collect_clubs scrape progress_interval (scl_range start_scl end_scl) [].

(** The club the engine finds for a key, if it returns one. *)
Definition found_club (scrape : Z → outcome (option ClubData)) (scl : Z) : option ClubData :=
  match scrape scl with
  | Returns (Some club_data) => Some club_data
  | _ => None
  end.

(** *** [test_50_clubs] ([tests/test_50_clubs.py], lines 33-102) *)

(** The loop of lines 43-102: every row is written and flushed as soon as
    its key has been processed. *)
Fixpoint write_through (scrape : Z → outcome (option ClubData)) (club_time : Z → string)
         (test_scls : list Z) (written : list Row) : list Row :=
  match test_scls with
  | [] => written
  | scl :: rest =>
      match scrape scl with
      | Returns (Some club) =>
          write_through scrape club_time rest
            (written ++ [found_row scl club (club_time scl)])%list
      | Returns None =>
          write_through scrape club_time rest
            (written ++ [empty_row scl (club_time scl)])%list
      | Raises e =>
          if is_Exception e then write_through scrape club_time rest written
          else written   (* except KeyboardInterrupt: break *)
      end
  end.

(** The file [test_50_clubs_results.csv] when the function ends. *)
Definition test_50_clubs (scrape : Z → outcome (option ClubData))
           (club_time : Z → string) : CsvFile :=
  {| header := fieldnames_range;
     rows := write_through scrape club_time (scl_range 5000 5050) [] |}.

(** *** Statements about the store *)

(** Every row of the map is one that [scrape_range] files under its key
    when it reads it back. *)
Definition filed_inv (m : gmap Z Row) : Prop :=
  ∀ k row, m !! k = Some row → range_key row = Some (Some k).

(** A heading that the proximity strategy may pick: it has a box, lies
    above the marker and less than 300 below it. *)
Definition near_above (affil_y : Z) (h2 : string * option Z) : Prop :=
  ∃ h2_y, snd h2 = Some h2_y ∧ h2_y < affil_y ∧ affil_y - h2_y < 300.

End Entry.


(** ** The discovery of the district sites ([scripts/verify_districts.py]) *)

Module Districts.
Import PyStr Scraper.

Definition DISTRICTS : list (string * string) :=
  [
   ("Ain", "ain"); ("Aisne", "aisne");
   ("Allier", "allier"); ("Alpes_de_Haute_Provence", "alpes-haute-provence");
   ("Hautes_Alpes", "hautes-alpes"); ("Alpes_Maritimes", "alpes-maritimes");
   ("Ardeche", "ardeche"); ("Ardennes", "ardennes");
   ("Ariege", "ariege"); ("Aube", "aube");
   ("Aude", "aude"); ("Aveyron", "aveyron");
   ("Bouches_du_Rhone", "bouches-du-rhone"); ("Calvados", "calvados");
   ("Cantal", "cantal"); ("Charente", "charente");
   ("Charente_Maritime", "charente-maritime"); ("Cher", "cher");
   ("Correze", "correze"); ("Corse", "corse");
   ("Cote_d_Or", "cote-d-or"); ("Cotes_d_Armor", "cotes-d-armor");
   ("Creuse", "creuse"); ("Dordogne", "dordogne");
   ("Doubs", "doubs"); ("Drome", "drome");
   ("Eure", "eure"); ("Eure_et_Loir", "eure-et-loir");
   ("Finistere", "finistere"); ("Gard", "gard");
   ("Haute_Garonne", "haute-garonne"); ("Gers", "gers");
   ("Gironde", "gironde"); ("Herault", "herault");
   ("Ille_et_Vilaine", "ille-et-vilaine"); ("Indre", "indre");
   ("Indre_et_Loire", "indre-et-loire"); ("Isere", "isere");
   ("Jura", "jura"); ("Landes", "landes");
   ("Loir_et_Cher", "loir-et-cher"); ("Loire", "loire");
   ("Haute_Loire", "haute-loire"); ("Loire_Atlantique", "loire-atlantique");
   ("Loiret", "loiret"); ("Lot", "lot");
   ("Lot_et_Garonne", "lot-et-garonne"); ("Lozere", "lozere");
   ("Maine_et_Loire", "maine-et-loire"); ("Manche", "manche");
   ("Marne", "marne"); ("Haute_Marne", "haute-marne");
   ("Mayenne", "mayenne"); ("Meurthe_et_Moselle", "meurthe-et-moselle");
   ("Meuse", "meuse"); ("Morbihan", "morbihan");
   ("Moselle", "moselle"); ("Nievre", "nievre");
   ("Nord", "nord"); ("Oise", "oise");
   ("Orne", "orne"); ("Pas_de_Calais", "pas-de-calais");
   ("Puy_de_Dome", "puy-de-dome"); ("Pyrenees_Atlantiques", "pyrenees-atlantiques");
   ("Hautes_Pyrenees", "hautes-pyrenees"); ("Pyrenees_Orientales", "pyrenees-orientales");
   ("Bas_Rhin", "bas-rhin"); ("Haut_Rhin", "haut-rhin");
   ("Rhone", "rhone"); ("Haute_Saone", "haute-saone");
   ("Saone_et_Loire", "saone-et-loire"); ("Sarthe", "sarthe");
   ("Savoie", "savoie"); ("Haute_Savoie", "haute-savoie");
   ("Paris_IDF", "paris-idf"); ("Seine_Maritime", "seine-maritime");
   ("Seine_et_Marne", "seine-et-marne"); ("Yvelines", "yvelines");
   ("Deux_Sevres", "deux-sevres"); ("Somme", "somme");
   ("Tarn", "tarn"); ("Tarn_et_Garonne", "tarn-et-garonne");
   ("Var", "var"); ("Vaucluse", "vaucluse");
   ("Vendee", "vendee"); ("Vienne", "vienne");
   ("Haute_Vienne", "haute-vienne"); ("Vosges", "vosges");
   ("Yonne", "yonne"); ("Territoire_de_Belfort", "territoire-de-belfort");
   ("Essonne", "essonne"); ("Hauts_de_Seine", "hauts-de-seine");
   ("Seine_Saint_Denis", "seine-saint-denis"); ("Val_de_Marne", "val-de-marne");
   ("Val_d_Oise", "val-d-oise"); ("Guadeloupe", "guadeloupe");
   ("Martinique", "martinique"); ("Guyane", "guyane");
   ("Reunion", "reunion"); ("Mayotte", "mayotte") ].

Definition VARIANTES : list (string * list string) :=
  [ ("Paris_IDF", ["paris-idf"; "parisidf"; "idf"]);
    ("Loire_Atlantique", ["loire-atlantique"; "district44"]);
    ("Nord", ["nord"; "district59"]);
    ("Pas_de_Calais", ["pas-de-calais"; "district62"]) ].

(** [d[key]] for a dictionary given by its items, [None] when
    [key not in d]. *)
Fixpoint dict_get {V : Type} (d : list (string * V)) (key : string) : option V :=
  match d with
  | [] => None
  | (k, v) :: d' => if String.eqb k key then Some v else dict_get d' key
  end.

(** [d[key] = value]: the value of an existing key is replaced in place, a
    new key is added at the end. *)
Fixpoint dict_set {V : Type} (d : list (string * V)) (key : string) (value : V)
  : list (string * V) :=
  match d with
  | [] => [(key, value)]
  | (k, v) :: d' =>
      if String.eqb k key then (k, value) :: d' else (k, v) :: dict_set d' key value
  end.

(** [f"https://{name}.fff.fr/les-clubs/"] *)
Definition district_url (name : string) : string :=
  "https://" +:+ name +:+ ".fff.fr/les-clubs/".

(** [verify_url] (lines 124-143).  [get url] is what [requests.get] does
    for [url]: the status code of the response, or an exception. *)
Definition verify_url (get : string → outcome nat) (url : string) : outcome bool :=
  match get url with
  | Returns status_code => Returns (Nat.eqb status_code 200)
  | Raises e => if is_Exception e then Returns false else Raises e
  end.

(** The loop of lines 166-172 over the variants of a district. *)
Fixpoint try_variantes (get : string → outcome nat) (base_name : string)
         (variantes : list string) : outcome (option string) :=
  match variantes with
  | [] => Returns None
  | variante :: rest =>
      if negb (String.eqb variante base_name) then
        let url := district_url variante in
        match verify_url get url with
        | Returns true => Returns (Some url)
        | Returns false => try_variantes get base_name rest
        | Raises e => Raises e
        end
      else try_variantes get base_name rest
  end.

(** [find_valid_url] (lines 146-174) *)
Definition find_valid_url (get : string → outcome nat)
           (district_name base_name : string) : outcome (option string) :=
  let url := district_url base_name in
  match verify_url get url with
  | Returns true => Returns (Some url)
  | Returns false =>
      match dict_get VARIANTES district_name with
      | Some variantes => try_variantes get base_name variantes
      | None => Returns None
      end
  | Raises e => Raises e
  end.

(** The loop of lines 191-204 over the items still to visit. *)
Fixpoint verify_items (get : string → outcome nat) (items : list (string * string))
         (valid_districts : list (string * string)) : outcome (list (string * string)) :=
  match items with
  | [] => Returns valid_districts
  | (district_name, base_name) :: rest =>
      match find_valid_url get district_name base_name with
      | Returns (Some url) =>
          if truthy url
          then verify_items get rest (dict_set valid_districts district_name url)
          else verify_items get rest valid_districts
      | Returns None => verify_items get rest valid_districts
      | Raises e => Raises e
      end
  end.

(** [generate_districts_json] (lines 177-213): the dictionary that is
    written to the output file and returned. *)
Definition generate_districts_json (get : string → outcome nat)
  : outcome (list (string * string)) :=
  verify_items get DISTRICTS [].

(** The names under which the site of a district is looked for: its base
    name, then its variants. *)
Definition candidates (district_name base_name : string) : list string :=
  base_name :: default [] (dict_get VARIANTES district_name).

End Districts.


(** ** Pages, files and sessions used as examples *)

Module Examples.
Import PyStr Re Scraper Store.

Definition page_fff : Page :=
  {| content := "<h1>CLUB FEDERATION FRANCAISE DE FOOTBALL</h1><h2>N"
                +:+ String degree "affiliation: 0</h2>";
     h1_texts := ["CLUB FEDERATION FRANCAISE DE FOOTBALL"];
     affil_y := None; h2_elems := []; other_texts := []; title := "";
     siege_address := None |}.

Definition page_of_h1 (h1 : string) : Page :=
  {| content := "<h2>N" +:+ String degree "affiliation: 512345</h2>";
     h1_texts := [h1];
     affil_y := None; h2_elems := []; other_texts := []; title := "";
     siege_address := None |}.






Definition none_found : Z → outcome (option ClubData) := λ _, Returns None.
Definition half_second : Z → string := λ _, "0.50".




Definition session_ok (p : Page) : Session :=
  {| goto_first := Returns (); goto_retry := Returns (); rendered := Returns p |}.

(** The first navigation times out and the user interrupts the retry. *)
Definition session_retry_interrupted : Session :=
  {| goto_first := Raises TimeoutError;
     goto_retry := Raises KeyboardInterrupt;
     rendered := Returns (page_of_h1 "CLUB DISTRICT GERS") |}.

(** The user interrupts the first navigation. *)
Definition session_first_interrupted : Session :=
  {| goto_first := Raises KeyboardInterrupt;
     goto_retry := Returns ();
     rendered := Returns (page_of_h1 "CLUB DISTRICT GERS") |}.

Definition web_interrupt_retry_at_2 (k : Z) : Session :=
  if k =? 2 then session_retry_interrupted
  else session_ok (page_of_h1 "CLUB DISTRICT GERS").

Definition web_interrupt_first_at_2 (k : Z) : Session :=
  if k =? 2 then session_first_interrupted
  else session_ok (page_of_h1 "CLUB DISTRICT GERS").

End Examples.


(** * Properties *)

(** ** Strings *)

Section StringFacts.
Import PyStr.

Lemma truthy_len s : truthy s = true ↔ 0 < len s.
Proof. unfold len. destruct s; simpl; split; intros; try lia; congruence. Qed.

Lemma rstrip_cons_nonspace x w :
  isspace x = false → ∃ r, rstrip (String x w) = String x r.
Proof.
  intros Hx. simpl. destruct (rstrip w) eqn:E.
  - rewrite Hx. eauto.
  - eauto.
Qed.

Lemma strip_cons_nonspace x w :
  isspace x = false → ∃ r, strip (String x w) = String x r.
Proof.
  intros Hx. unfold strip. cbn [lstrip]. rewrite Hx.
  by apply rstrip_cons_nonspace.
Qed.

Lemma app_nil_str (s : string) : "" +:+ s = s.
Proof. reflexivity. Qed.

Lemma app_cons_str c (u s : string) : String c u +:+ s = String c (u +:+ s).
Proof. reflexivity. Qed.

Lemma app_length_str (u w : string) :
  String.length (u +:+ w) = (String.length u + String.length w)%nat.
Proof. induction u as [|c u IH]; rewrite ?app_nil_str, ?app_cons_str; simpl; [done | by rewrite IH]. Qed.

Lemma app_assoc_str (u v w : string) : (u +:+ v) +:+ w = u +:+ (v +:+ w).
Proof. induction u as [|c u IH]; rewrite ?app_nil_str, ?app_cons_str; simpl; [done | by rewrite IH]. Qed.

Lemma substring_app_prefix (u w : string) :
  substring 0 (String.length u) (u +:+ w) = u.
Proof. induction u as [|c u IH]; rewrite ?app_nil_str, ?app_cons_str; simpl; [by destruct w | by rewrite IH]. Qed.


End StringFacts.

(** ** The matcher only returns texts the pattern accepts *)

Section MatcherSound.
Import PyStr Re.
Context {A : Type}.

Lemma rep_greedy_sound p lo hi s (k : string → option A) a :
  rep_greedy p lo hi s k = Some a →
  ∃ u s', s = u +:+ s' ∧ forallb_str p u = true ∧ (lo ≤ String.length u)%nat
          ∧ (∀ h, hi = Some h → (String.length u ≤ h)%nat) ∧ k s' = Some a.
Proof.
  revert lo hi. induction s as [|c s IH]; intros lo hi H; simpl in H.
  - destruct lo; [|done]. exists "", "". repeat split; simpl; auto; lia.
  - assert (Hstop : (match lo with O => k (String c s) | S _ => None end) = Some a →
                    ∃ u s', String c s = u +:+ s' ∧ forallb_str p u = true
                            ∧ (lo ≤ String.length u)%nat
                            ∧ (∀ h, hi = Some h → (String.length u ≤ h)%nat)
                            ∧ k s' = Some a).
    { intros Hk. destruct lo; [|done]. exists "", (String c s).
      repeat split; simpl; auto; lia. }
    destruct (p c && can_take hi) eqn:Hc; [|by apply Hstop].
    destruct (rep_greedy p (Nat.pred lo) (dec hi) s k) eqn:Hr; [|by apply Hstop].
    injection H as ->. apply andb_true_iff in Hc as [Hp Hh].
    apply IH in Hr as (u & s' & -> & Hu & Hlo & Hhi & Hk).
    exists (String c u), s'. repeat split; simpl; auto.
    + by rewrite Hp.
    + lia.
    + intros h ->. destruct h; [done|]. specialize (Hhi h eq_refl). lia.
Qed.

Lemma rep_lazy_sound p lo hi s (k : string → option A) a :
  rep_lazy p lo hi s k = Some a →
  ∃ u s', s = u +:+ s' ∧ forallb_str p u = true ∧ (lo ≤ String.length u)%nat
          ∧ (∀ h, hi = Some h → (String.length u ≤ h)%nat) ∧ k s' = Some a.
Proof.
  revert lo hi. induction s as [|c s IH]; intros lo hi H; simpl in H.
  - destruct lo; [|done]. destruct (k "") eqn:Hk; [|done]. injection H as ->.
    exists "", "". repeat split; simpl; auto; lia.
  - assert (Hmore : (if p c && can_take hi
                     then rep_lazy p (Nat.pred lo) (dec hi) s k else None) = Some a →
                    ∃ u s', String c s = u +:+ s' ∧ forallb_str p u = true
                            ∧ (lo ≤ String.length u)%nat
                            ∧ (∀ h, hi = Some h → (String.length u ≤ h)%nat)
                            ∧ k s' = Some a).
    { intros Hm. destruct (p c && can_take hi) eqn:Hc; [|done].
      apply andb_true_iff in Hc as [Hp Hh].
      apply IH in Hm as (u & s' & -> & Hu & Hlo & Hhi & Hk).
      exists (String c u), s'. repeat split; simpl; auto.
      - by rewrite Hp.
      - lia.
      - intros h ->. destruct h; [done|]. specialize (Hhi h eq_refl). lia. }
    destruct lo; [|by apply Hmore].
    destruct (k (String c s)) eqn:Hk; [|by apply Hmore].
    injection H as ->. exists "", (String c s).
    repeat split; simpl; auto; lia.
Qed.

Lemma match_atoms_sound atoms s (k : string → option A) a :
  match_atoms atoms s k = Some a →
  ∃ w s', s = w +:+ s' ∧ Accepts atoms w ∧ k s' = Some a.
Proof.
  revert s k. induction atoms as [|at_ atoms IH]; intros s k H.
  - exists "", s. simpl in H. repeat split; auto. constructor.
  - destruct at_ as [c|p|g lo hi p]; simpl in H.
    + destruct s as [|x s]; [done|]. destruct (lit_eq c x) eqn:E; [|done].
      apply IH in H as (w & s' & -> & Hw & Hk).
      exists (String x w), s'. repeat split; auto. by constructor.
    + destruct s as [|x s]; [done|]. destruct (p x) eqn:E; [|done].
      apply IH in H as (w & s' & -> & Hw & Hk).
      exists (String x w), s'. repeat split; auto. by constructor.
    + assert (∃ u s1, s = u +:+ s1 ∧ forallb_str p u = true
                      ∧ (lo ≤ String.length u)%nat
                      ∧ (∀ h, hi = Some h → (String.length u ≤ h)%nat)
                      ∧ match_atoms atoms s1 k = Some a) as (u & s1 & -> & Hu & Hlo & Hhi & Hm).
      { destruct g; [by apply rep_greedy_sound in H | by apply rep_lazy_sound in H]. }
      apply IH in Hm as (w & s' & -> & Hw & Hk).
      exists (u +:+ w), s'. rewrite app_assoc_str. repeat split; auto.
      by constructor.
Qed.

End MatcherSound.

Section SearchSound.
Import PyStr Re.

Lemma consumed_app (w s : string) : consumed (w +:+ s) s = w.
Proof.
  unfold consumed. rewrite app_length_str.
  replace (String.length w + String.length s - String.length s)%nat
    with (String.length w) by lia.
  apply substring_app_prefix.
Qed.

Lemma match_here_group pat s m :
  match_here pat s = Some m → Accepts (grp pat) (group1 m).
Proof.
  unfold match_here. intros H.
  apply match_atoms_sound in H as (w0 & s1 & -> & _ & H).
  apply match_atoms_sound in H as (w1 & s2 & -> & Hg & H).
  apply match_atoms_sound in H as (w2 & s3 & -> & _ & H).
  injection H as <-. simpl. by rewrite consumed_app.
Qed.

Lemma search_group pat s m :
  search pat s = Some m → Accepts (grp pat) (group1 m).
Proof.
  induction s as [|c s IH]; simpl; destruct (match_here pat _) eqn:E; intros H;
    try done; try (injection H as ->; by eapply match_here_group).
  by apply IH.
Qed.

Lemma finditer_fuel_group n pat s m :
  m ∈ finditer_fuel n pat s → Accepts (grp pat) (group1 m).
Proof.
  revert s. induction n as [|n IH]; intros s; simpl; [by intros ?%elem_of_nil|].
  destruct (search pat s) eqn:E; [|by intros ?%elem_of_nil].
  intros [->|H]%elem_of_cons; [by eapply search_group|].
  destruct (_ <? _)%nat; [by eapply IH|].
  destruct s; [by apply elem_of_nil in H | by eapply IH].
Qed.

Lemma Accepts_rep_first g lo hi p rest w :
  Accepts (Rep g (S lo) hi p :: rest) w →
  ∃ x w', w = String x w' ∧ p x = true.
Proof.
  inversion 1 as [| | |? ? ? ? u w' ? Hu Hlo Hhi Hrest]; subst.
  destruct u as [|x u]; simpl in *; [lia|].
  apply andb_true_iff in Hu as [Hx _]. eauto.
Qed.

End SearchSound.

(** ** The extraction engine *)

Section EngineFacts.
Import PyStr Re Scraper.

(** A fact about every character, checked on the 256 of them. *)
Ltac all_chars c := destruct c as [[] [] [] [] [] [] [] []]; vm_compute; congruence.

Lemma mail_local_not_space c : c_mail_local c = true → isspace c = false.
Proof. all_chars c. Qed.

Lemma not_space_angle_not_space c : c_not_space_angle c = true → isspace c = false.
Proof. all_chars c. Qed.

Lemma decimal_not_space c : isdecimal c = true → isspace c = false.
Proof. all_chars c. Qed.

Lemma first_match_group pats t m :
  first_match pats t = Some m →
  ∃ pat, pat ∈ pats ∧ Accepts (grp pat) (group1 m).
Proof.
  induction pats as [|pat pats IH]; simpl; [done|].
  destruct (search pat t) eqn:E.
  - intros [= ->]. exists pat. split; [left | by eapply search_group].
  - intros (q & Hq & Hm)%IH. exists q. split; [by right | done].
Qed.

(** The affiliation number captured by the marker is never empty. *)
Lemma affil_group_truthy t m :
  search affil_pattern t = Some m → truthy (group1 m) = true.
Proof.
  intros H%search_group. apply Accepts_rep_first in H as (x & w & -> & _). done.
Qed.

(** A captured e-mail is not empty once stripped. *)
Lemma mail_group_truthy pats t m :
  (∀ pat, pat ∈ pats → grp pat = strict_mail ∨ grp pat = loose_mail) →
  first_match pats t = Some m → truthy (strip (group1 m)) = true.
Proof.
  intros Hp (pat & Hin & Hacc)%first_match_group.
  assert (∃ x w, group1 m = String x w ∧ isspace x = false) as (x & w & -> & Hx).
  { destruct (Hp pat Hin) as [E|E]; rewrite E in Hacc;
      apply Accepts_rep_first in Hacc as (x & w & -> & Hx); exists x, w;
      (split; [done|]); [by apply mail_local_not_space
                        | by apply not_space_angle_not_space]. }
  by destruct (strip_cons_nonspace x w Hx) as [r ->].
Qed.

Lemma email_principal_truthy t e :
  find_email_principal t = Some e → truthy e = true.
Proof.
  unfold find_email_principal. destruct (first_match _ t) eqn:E; [|done].
  intros [= <-]. eapply mail_group_truthy; [|exact E].
  intros pat Hin. unfold email_patterns_principal in Hin.
  repeat (apply elem_of_cons in Hin as [->|Hin]; [simpl; auto|]).
  by apply elem_of_nil in Hin.
Qed.

Lemma email_officiel_truthy t e :
  find_email_officiel t = Some e → truthy e = true.
Proof.
  unfold find_email_officiel. destruct (first_match _ t) eqn:E; [|done].
  intros [= <-]. eapply mail_group_truthy; [|exact E].
  intros pat Hin. unfold email_patterns_officiel in Hin.
  repeat (apply elem_of_cons in Hin as [->|Hin]; [simpl; auto|]).
  by apply elem_of_nil in Hin.
Qed.







Lemma py_or_Some_truthy x b : truthy x = true → py_or (Some x) b = Some x.
Proof. unfold py_or. by intros ->. Qed.

End EngineFacts.

(** ** Printing and reading integers *)

Section IntFacts.
Import PyStr.

Lemma lstrip_rstrip_fixed t :
  lstrip t = t → lstrip (rstrip t) = rstrip t.
Proof.
  destruct t as [|c t]; [done|]. cbn [lstrip].
  destruct (isspace c) eqn:E.
  - intros H. exfalso.
    assert (Hlen : ∀ s, (String.length (lstrip s) ≤ String.length s)%nat).
    { induction s as [|a s IH]; simpl; [lia|]. destruct (isspace a); simpl; lia. }
    specialize (Hlen t). rewrite H in Hlen. simpl in Hlen. lia.
  - intros _. destruct (rstrip_cons_nonspace c t E) as [r ->].
    cbn [lstrip]. by rewrite E.
Qed.

Lemma lstrip_idem s : lstrip (lstrip s) = lstrip s.
Proof.
  induction s as [|c s IH]; [done|]. cbn [lstrip].
  destruct (isspace c) eqn:E; [done|]. cbn [lstrip]. by rewrite E.
Qed.

Lemma rstrip_idem s : rstrip (rstrip s) = rstrip s.
Proof.
  induction s as [|c s IH]; [done|]. cbn [rstrip].
  destruct (rstrip s) as [|d r] eqn:Er.
  - destruct (isspace c) eqn:E; [done|]. cbn [rstrip]. by rewrite E.
  - cbn [rstrip]. cbn [rstrip] in IH. by rewrite IH.
Qed.

Lemma strip_idem s : strip (strip s) = strip s.
Proof.
  unfold strip. rewrite lstrip_rstrip_fixed by apply lstrip_idem.
  apply rstrip_idem.
Qed.

Lemma int_of_str_strip s : int_of_str (strip s) = int_of_str s.
Proof. unfold int_of_str. by rewrite strip_idem. Qed.

Lemma rstrip_no_space s :
  forallb_str (λ c, negb (isspace c)) s = true → rstrip s = s.
Proof.
  induction s as [|c s IH]; [done|]. cbn [forallb_str rstrip].
  intros [Hc Hs]%andb_true_iff. rewrite (IH Hs).
  apply negb_true_iff in Hc. rewrite Hc. by destruct s.
Qed.

Lemma strip_no_space s :
  forallb_str (λ c, negb (isspace c)) s = true → strip s = s.
Proof.
  intros H. unfold strip.
  assert (lstrip s = s) as ->; [|by apply rstrip_no_space].
  destruct s as [|c s]; [done|]. cbn [forallb_str] in H.
  apply andb_true_iff in H as [Hc _]. apply negb_true_iff in Hc.
  cbn [lstrip]. by rewrite Hc.
Qed.

Lemma digits_value_uint d acc b :
  d ≠ Decimal.Nil ∨ b = true →
  digits_value acc b (NilEmpty.string_of_uint d) = Some (uint_val acc d).
Proof.
  revert acc b. induction d; intros acc b Hd;
    [destruct Hd as [?| ->]; done|..];
    cbn [NilEmpty.string_of_uint digits_value uint_val];
    match goal with
    | |- (if isdecimal ?c then _ else _) = _ => change (isdecimal c) with true
    end; cbn iota;
    match goal with
    | |- context [Z.of_N (code ?c - 48)] =>
        let v := eval vm_compute in (Z.of_N (code c - 48)) in
        change (Z.of_N (code c - 48)) with v
    end;
    rewrite ?Z.add_0_r; apply IHd; by right.
Qed.

Lemma uint_val_acc d (acc : positive) :
  uint_val (Z.pos acc) d = Z.pos (Pos.of_uint_acc d acc).
Proof.
  revert acc. induction d; intros acc; cbn [uint_val Pos.of_uint_acc]; [done|..];
    rewrite <- IHd; f_equal; lia.
Qed.

Lemma uint_val_0 d : uint_val 0 d = Z.of_N (Pos.of_uint d).
Proof.
  induction d; cbn [uint_val Pos.of_uint]; [done|exact IHd|..];
    match goal with
    | |- uint_val ?a d = _ =>
        let v := eval vm_compute in a in change a with v
    end; by rewrite uint_val_acc.
Qed.

Lemma string_of_uint_no_space d :
  forallb_str (λ c, negb (isspace c)) (NilEmpty.string_of_uint d) = true.
Proof. induction d; cbn [NilEmpty.string_of_uint forallb_str]; [done|..]; exact IHd. Qed.

Lemma to_uint_not_nil p : Pos.to_uint p ≠ Decimal.Nil.
Proof.
  intros H. pose proof (Unsigned.of_to p) as E. rewrite H in E. done.
Qed.

Lemma digits_of_pos p b :
  digits_value 0 b (NilEmpty.string_of_uint (Pos.to_uint p)) = Some (Z.pos p).
Proof.
  rewrite digits_value_uint by (left; apply to_uint_not_nil).
  by rewrite uint_val_0, Unsigned.of_to.
Qed.

(** [int(str(k)) == k] *)
Lemma int_of_str_of_Z k : int_of_str (str_of_Z k) = Some k.
Proof.
  destruct k as [|p|p].
  - reflexivity.
  - unfold str_of_Z, int_of_str. cbn [Z.to_int NilZero.string_of_int].
    pose proof (to_uint_not_nil p) as Hn.
    pose proof (string_of_uint_no_space (Pos.to_uint p)) as Hs.
    pose proof (digits_of_pos p false) as Hv.
    unfold NilZero.string_of_uint.
    destruct (Pos.to_uint p) eqn:E; [done|..];
      rewrite (strip_no_space _ Hs); exact Hv.
  - unfold str_of_Z, int_of_str. cbn [Z.to_int NilZero.string_of_int].
    pose proof (to_uint_not_nil p) as Hn.
    pose proof (string_of_uint_no_space (Pos.to_uint p)) as Hs.
    pose proof (digits_of_pos p false) as Hv.
    assert (NilZero.string_of_uint (Pos.to_uint p)
            = NilEmpty.string_of_uint (Pos.to_uint p)) as ->.
    { unfold NilZero.string_of_uint. by destruct (Pos.to_uint p). }
    rewrite strip_no_space by (cbn [forallb_str]; by rewrite Hs).
    by rewrite Hv.
Qed.

End IntFacts.

(** ** The overwrite-by-key store *)

Section RangeFacts.
Import PyStr Scraper Store.
Implicit Types (m : gmap Z Row) (k j : Z) (row : Row).





Lemma range_key_row_key row k :
  range_key row = Some (Some k) → row_key row = Some k.
Proof.
  unfold range_key, row_key.
  destruct (truthy _ && isdigit _); [|done].
  intros [= H]. by rewrite <- int_of_str_strip.
Qed.

(** *** Reading the prior file *)





(** *** The scraping loop *)





(** *** The written file *)

Lemma sorted_keys_elem m k : k ∈ sorted_keys m ↔ is_Some (m !! k).
Proof.
  unfold sorted_keys. rewrite merge_sort_Permutation, elem_of_elements.
  apply elem_of_dom.
Qed.

Lemma sorted_keys_NoDup m : NoDup (sorted_keys m).
Proof.
  unfold sorted_keys. rewrite merge_sort_Permutation. apply NoDup_elements.
Qed.

Lemma StronglySorted_le_lt (l : list Z) :
  StronglySorted Z.le l → NoDup l → StronglySorted Z.lt l.
Proof.
  induction 1 as [|x l Hs IH Hx]; intros Hnd; [constructor|].
  apply NoDup_cons in Hnd as [Hx' Hnd]. constructor; [by apply IH|].
  rewrite Forall_forall in *. intros y Hy. specialize (Hx y Hy).
  assert (x ≠ y) by (intros ->; done). lia.
Qed.

Lemma sorted_keys_sorted m : StronglySorted Z.lt (sorted_keys m).
Proof.
  apply StronglySorted_le_lt; [|apply sorted_keys_NoDup].
  unfold sorted_keys. apply (StronglySorted_merge_sort _).
Qed.






Lemma elem_of_scl_range a b k : k ∈ scl_range a b ↔ a ≤ k ≤ b.
Proof. unfold scl_range. rewrite elem_of_seqZ. lia. Qed.

Lemma scl_range_split a b k :
  a ≤ k ≤ b →
  scl_range a b = (scl_range a k ++ scl_range (k + 1) b)%list.
Proof.
  intros Hk. unfold scl_range.
  replace (b + 1 - a) with ((k + 1 - a) + (b + 1 - (k + 1))) by lia.
  rewrite seqZ_app by lia. do 2 f_equal. lia.
Qed.




End RangeFacts.

(** ** The append driver *)

Section AppendFacts.
Import PyStr Scraper Store.






End AppendFacts.


(** * The claims *)

(** ** The extraction engine *)

Section EngineClaims.
Import PyStr Re Scraper Examples.

(** C3.  For every rendered page the engine returns [None] exactly when the
    markup holds no affiliation marker or no name candidate is accepted;
    when a marker is present and a name is accepted it returns the record
    with that name and the captured number, whatever the number is, the
    sentinel "0" included. *)
Theorem extraction_not_found_iff (url : string) (p : Page) :
  (extract_from_page url p = None ↔
     search affil_pattern (content p) = None ∨ derive_nom p = None)
  ∧ (∀ m n, search affil_pattern (content p) = Some m → derive_nom p = Some n →
       ∃ club, extract_from_page url p = Some club
               ∧ nom club = n ∧ numero_affiliation club = Some (group1 m)).
Proof.
  unfold extract_from_page.
  destruct (search affil_pattern (content p)) as [m|] eqn:Hm.
  - destruct (derive_nom p) as [n|] eqn:Hn.
    + pose proof (affil_group_truthy _ _ Hm) as Ht. rewrite Ht. simpl.
      split.
      * split; [|intros [?|?]; done].
        destruct (String.eqb (group1 m) "0" && truthy n); done.
      * intros m' n' [= <-] [= <-].
        destruct (String.eqb (group1 m) "0" && truthy n); eauto.
    + split; [split; auto | intros; done].
  - split; [split; auto | intros; done].
Qed.

Lemma extraction_sentinel_witness :
  ∃ club, extract_from_page "u" page_fff = Some club
          ∧ nom club = "CLUB FEDERATION FRANCAISE DE FOOTBALL"
          ∧ numero_affiliation club = Some "0".
Proof.
  apply (proj2 (extraction_not_found_iff "u" page_fff)
               {| group1 := "0"; after := "</h2>" |}
               "CLUB FEDERATION FRANCAISE DE FOOTBALL");
    vm_compute; reflexivity.
Defined.

(** C5.  The e-mail is chosen by the fixed priority principal, official,
    other: a principal match is returned; without one, an official match;
    without either, the other value, which is the first token of the
    comma-separated text captured under the "other" label. *)
Theorem email_priority (t : string) :
  (∀ e, find_email_principal t = Some e → find_email t = Some e)
  ∧ (find_email_principal t = None →
     ∀ e, find_email_officiel t = Some e → find_email t = Some e)
  ∧ (find_email_principal t = None → find_email_officiel t = None →
     find_email t = find_email_autre t)
  ∧ (∀ emails_str, find_emails_str t = Some emails_str →
     find_email_autre t = Some (strip (first_token "," emails_str))).
Proof.
  unfold find_email. repeat split.
  - intros e H. rewrite H. pose proof (email_principal_truthy _ _ H) as Ht.
    unfold py_or. by rewrite Ht, Ht.
  - intros Hp e H. rewrite Hp, H. pose proof (email_officiel_truthy _ _ H) as Ht.
    unfold py_or. by rewrite Ht.
  - intros -> ->. done.
  - intros emails_str H. unfold find_email_autre. by rewrite H.
Qed.

Lemma email_priority_witness :
  find_email ("Email principal: a@club.fr <b>Email officiel</b> : b@fff.fr")
  = Some "a@club.fr"
  ∧ find_email ("Email officiel: b@fff.fr Email autre: c@x.fr,d@y.fr")
    = Some "b@fff.fr"
  ∧ find_email_autre ("Email autre: c@x.y,d@y.fr") = Some "c@x.y".
Proof.
  split; [|split].
  - apply (proj1 (email_priority _)). vm_compute. reflexivity.
  - apply (proj1 (proj2 (email_priority _))); vm_compute; reflexivity.
  - apply (proj2 (proj2 (proj2 (email_priority _))) "c@x.y,d@y.fr").
    vm_compute. reflexivity.
Defined.



End EngineClaims.

Section NameClaims.
Import PyStr Re Scraper Examples.

Lemma contains_any_cons w ws t :
  contains_any (w :: ws) t = contains w t || contains_any ws t.
Proof. reflexivity. Qed.












End NameClaims.


(** ** The resumable store *)

Section RangeClaims.
Import PyStr Scraper Store Examples.






End RangeClaims.

Section AppendClaims.
Import PyStr Scraper Store Examples.






End AppendClaims.

Section InterruptionClaims.
Import PyStr Re Scraper Store Examples.

(** An interruption that reaches the handler of the append driver ends the
    run and keeps the rows written so far. *)
Lemma append_loop_interrupt scrape (ex : gset Z) k keys r :
  k ∉ ex → scrape k = Raises KeyboardInterrupt →
  append_loop scrape ex (k :: keys) r
  = {| written := written r; fetched := (fetched r ++ [k])%list;
       interrupted := true |}.
Proof. intros Hk He. simpl. rewrite decide_False by done. by rewrite He. Qed.

(** An interruption that reaches the handler of [scrape_range] leaves the
    loop with the map built so far, which is then written. *)
Lemma scrape_loop_interrupt scrape club_time k keys m :
  scrape k = Raises KeyboardInterrupt →
  scrape_loop scrape club_time (k :: keys) m = m.
Proof. intros He. simpl. by rewrite He. Qed.

(** C9, at the input where the code departs from it.  A user interruption
    raised during the first navigation leaves the engine as an exception
    and stops both drivers.  Raised during the retry navigation it is
    caught by the bare [except] of the engine, which returns "not found":
    the append driver goes on to the following keys and ends without
    having been interrupted, and [scrape_range] stores an empty-field row
    for the key and goes on as well. *)
Theorem retry_swallows_interruption :
  extract_club_by_scl session_first_interrupted 2 = Raises KeyboardInterrupt
  ∧ fetched (run_all 3 1000 None 1 (engine web_interrupt_first_at_2)) = [1; 2]
  ∧ interrupted (run_all 3 1000 None 1 (engine web_interrupt_first_at_2)) = true
  ∧ extract_club_by_scl session_retry_interrupted 2 = Returns None
  ∧ fetched (run_all 3 1000 None 1 (engine web_interrupt_retry_at_2)) = [1; 2; 3]
  ∧ interrupted (run_all 3 1000 None 1 (engine web_interrupt_retry_at_2)) = false
  ∧ rows_of_key (scrape_range 1 3 None (engine web_interrupt_retry_at_2)
                              half_second) 2
    = [empty_row 2 "0.50"]
  ∧ col_nom <$> rows (scrape_range 1 3 None (engine web_interrupt_retry_at_2)
                                   half_second)
    = ["CLUB DISTRICT GERS"; ""; "CLUB DISTRICT GERS"].
Proof. repeat split; vm_compute; reflexivity. Qed.

End InterruptionClaims.


(** * Further properties of the code *)

(** * Further properties of the code *)

(** ** The records the engine returns *)

Section RecordFacts.
Import PyStr Re Scraper Store Entry Examples.

Lemma app_nil_r_str (s : string) : s +:+ "" = s.
Proof. induction s as [|c s IH]; [done|]. by rewrite app_cons_str, IH. Qed.

Lemma app_inv_head_str (s a b : string) : s +:+ a = s +:+ b → a = b.
Proof.
  induction s as [|c s IH]; [done|]. rewrite !app_cons_str. intros [= H]. auto.
Qed.

(** A repetition that ends a pattern consumes only characters of its
    class. *)
Lemma Accepts_rep_only g lo hi p w :
  Accepts [Rep g lo hi p] w →
  forallb_str p w = true ∧ (lo ≤ String.length w)%nat.
Proof.
  inversion 1 as [| | |? ? ? ? u w' ? Hu Hlo Hhi Hrest]; subst.
  inversion Hrest; subst. by rewrite app_nil_r_str.
Qed.

Lemma find_map_some (accept : string → bool) (g : string → string) l n :
  List.find accept (map g l) = Some n →
  accept n = true ∧ ∃ x, x ∈ l ∧ n = g x.
Proof.
  intros [Hin Hacc]%List.find_some. split; [done|].
  apply List.in_map_iff in Hin as (x & <- & Hx).
  exists x. by rewrite list_elem_of_In.
Qed.

Lemma find_fmap_some {A} (accept : string → bool) (g : A → string) (l : list A) n :
  List.find accept (map g l) = Some n →
  accept n = true ∧ ∃ x, x ∈ l ∧ n = g x.
Proof.
  intros [Hin Hacc]%List.find_some. split; [done|].
  apply List.in_map_iff in Hin as (x & <- & Hx).
  exists x. by rewrite list_elem_of_In.
Qed.

Ltac andb_hyps H :=
  repeat match type of H with
         | (_ && _) = true => let H' := fresh "Hc" in apply andb_true_iff in H as [H H']
         end.

(** Every name the strategies yield is longer than five characters and has
    no white space at either end. *)
Lemma derive_nom_shape p n :
  derive_nom p = Some n → 5 < len n ∧ strip n = n.
Proof.
  unfold derive_nom, or_else.
  destruct (strategy_h1 p) as [n1|] eqn:E1.
  { intros [= <-]. apply find_fmap_some in E1 as (Hacc & x & _ & ->).
    split; [|apply strip_idem]. unfold accept_h1 in Hacc. andb_hyps Hacc. lia. }
  destruct (strategy_regex p) as [n2|] eqn:E2.
  { intros [= <-]. unfold strategy_regex in E2. clear E1.
    induction nom_patterns as [|pat pats IH]; simpl in E2; [done|].
    unfold regex_candidate in E2 at 1.
    destruct (search pat (content p)) as [m|]; simpl in E2; [|by apply IH].
    destruct (accept_regex (strip (group1 m))) eqn:Hacc; [|by apply IH].
    injection E2 as <-. split; [|apply strip_idem].
    unfold accept_regex in Hacc. andb_hyps Hacc. lia. }
  destruct (strategy_near p) as [n3|] eqn:E3.
  { intros [= <-]. unfold strategy_near in E3.
    destruct (affil_y p) as [y|]; [|done].
    destruct (closest_h2 y (h2_elems p)) as [inner|]; [|done].
    destruct (accept_near (strip inner)) eqn:Hacc; [|done].
    injection E3 as <-. split; [|apply strip_idem].
    unfold accept_near in Hacc. andb_hyps Hacc. lia. }
  destruct (strategy_h2 p) as [n4|] eqn:E4.
  { intros [= <-]. apply find_fmap_some in E4 as (Hacc & x & _ & ->).
    split; [|apply strip_idem]. unfold accept_h2 in Hacc. andb_hyps Hacc. lia. }
  destruct (strategy_other p) as [n5|] eqn:E5.
  { intros [= <-]. apply find_fmap_some in E5 as (Hacc & x & _ & ->).
    split; [|apply strip_idem]. unfold accept_other in Hacc. andb_hyps Hacc. lia. }
  unfold strategy_title. destruct (truthy (title p)); [|done].
  destruct (accept_title _) eqn:Hacc; [|done]. intros [= <-].
  split; [|apply strip_idem]. unfold accept_title in Hacc. andb_hyps Hacc. lia.
Qed.

(** What every record returned for a rendered page satisfies. *)
Lemma found_record_fields (url : string) (p : Page) (club : ClubData) :
  extract_from_page url p = Some club →
  5 < len (nom club) ∧ strip (nom club) = nom club
  ∧ (∃ numero, numero_affiliation club = Some numero
               ∧ truthy numero = true ∧ forallb_str isdecimal numero = true)
  ∧ url_detail club = Some url.
Proof.
  unfold extract_from_page.
  destruct (search affil_pattern (content p)) as [m|] eqn:Hm; [|done].
  destruct (derive_nom p) as [n|] eqn:Hn; [|done].
  pose proof (derive_nom_shape _ _ Hn) as [Hlen Hstrip].
  pose proof (affil_group_truthy _ _ Hm) as Ht.
  apply search_group, Accepts_rep_only in Hm as [Hdigits _].
  intros H.
  assert (club = {| nom := n; numero_affiliation := Some (group1 m);
                    email := find_email (content p);
                    telephone := find_telephone (content p);
                    adresse := find_adresse p; url_detail := Some url;
                    email_officiel := find_email_officiel (content p);
                    email_principal := find_email_principal (content p) |}) as ->.
  { destruct (String.eqb (group1 m) "0" && truthy n); [by injection H|].
    rewrite Ht in H. by injection H. }
  simpl. eauto 10.
Qed.

(** X1.  Every record the engine returns for a rendered page has a name of
    more than five characters without white space at its ends, an
    affiliation number that is a non-empty run of decimal digits, and the
    URL it was given. *)
Theorem found_record_shape (url : string) (p : Page) (club : ClubData) :
  extract_from_page url p = Some club →
  5 < len (nom club) ∧ strip (nom club) = nom club
  ∧ (∃ numero, numero_affiliation club = Some numero
               ∧ truthy numero = true ∧ forallb_str isdecimal numero = true)
  ∧ url_detail club = Some url.
Proof. apply found_record_fields. Qed.

Lemma found_record_shape_witness :
  ∃ club, extract_from_page "u" page_fff = Some club ∧ 5 < len (nom club).
Proof.
  eexists. split; [vm_compute; reflexivity|].
  eapply (found_record_shape "u" page_fff). vm_compute. reflexivity.
Defined.

(** A found club never yields the row of an absent one: its name cell is
    not empty. *)
Lemma found_row_named url p club scl t :
  extract_from_page url p = Some club →
  col_nom (found_row scl club t) ≠ "".
Proof.
  intros (Hlen & _)%found_record_fields. simpl. intros E. rewrite E in Hlen.
  vm_compute in Hlen. done.
Qed.

End RecordFacts.


(** ** Navigation, exceptions and URLs *)

Section NavigationFacts.
Import PyStr Re Scraper Store Entry Examples.

Lemma after_goto_some url s club :
  after_goto url s = Returns (Some club) →
  ∃ p, rendered s = Returns p ∧ extract_from_page url p = Some club.
Proof.
  unfold after_goto. destruct (rendered s) as [p|e].
  - intros [= H]. eauto.
  - by destruct (is_Exception e).
Qed.

(** A record returned for a key comes from the engine run on a rendered
    page with the URL of that key. *)
Lemma extract_club_some s scl club :
  extract_club_by_scl s scl = Returns (Some club) →
  ∃ p, rendered s = Returns p
       ∧ extract_from_page (url_of default_base_url scl) p = Some club.
Proof.
  unfold extract_club_by_scl. destruct (goto_first s) as [?|e].
  - apply after_goto_some.
  - destruct (is_Exception e); [|done].
    destruct (goto_retry s); [apply after_goto_some | done].
Qed.

(** X2.  [extract_club_by_scl] lets no ordinary exception escape: the only
    exception it can raise is a user interruption, and only one raised by
    the first navigation or while the page is read; when both navigations
    fail it returns "not found". *)
Theorem only_interruption_escapes (s : Session) (scl : Z) :
  (∀ e, extract_club_by_scl s scl = Raises e →
        e = KeyboardInterrupt
        ∧ (goto_first s = Raises KeyboardInterrupt
           ∨ rendered s = Raises KeyboardInterrupt))
  ∧ (∀ e1 e2, goto_first s = Raises e1 → is_Exception e1 = true →
              goto_retry s = Raises e2 →
              extract_club_by_scl s scl = Returns None).
Proof.
  split.
  - intros e. unfold extract_club_by_scl, after_goto.
    destruct (goto_first s) as [?|e1].
    + destruct (rendered s) as [p|e']; [done|].
      destruct e'; simpl; intros [= <-]; auto.
    + destruct e1; simpl.
      * intros [= <-]. auto.
      * destruct (goto_retry s); [|done].
        destruct (rendered s) as [p|e']; [done|].
        destruct e'; simpl; intros [= <-]; auto.
      * destruct (goto_retry s); [|done].
        destruct (rendered s) as [p|e']; [done|].
        destruct e'; simpl; intros [= <-]; auto.
  - intros e1 e2 H1 He1 H2. unfold extract_club_by_scl.
    by rewrite H1, He1, H2.
Qed.

Lemma only_interruption_escapes_witness :
  extract_club_by_scl session_retry_interrupted 2 = Returns None.
Proof.
  apply (proj2 (only_interruption_escapes session_retry_interrupted 2)
               TimeoutError KeyboardInterrupt); reflexivity.
Defined.

(** X3.  A navigation that fails once and succeeds on the retry gives what
    a navigation that succeeds at once gives. *)
Theorem retry_is_transparent (s : Session) (scl : Z) (e : exn) :
  goto_first s = Raises e → is_Exception e = true →
  goto_retry s = Returns () →
  extract_club_by_scl s scl
  = extract_club_by_scl {| goto_first := Returns (); goto_retry := goto_retry s;
                           rendered := rendered s |} scl.
Proof.
  intros H1 He H2. unfold extract_club_by_scl. simpl.
  by rewrite H1, He, H2.
Qed.

Lemma retry_is_transparent_witness :
  extract_club_by_scl {| goto_first := Raises TimeoutError; goto_retry := Returns ();
                         rendered := Returns page_fff |} 1
  = extract_club_by_scl {| goto_first := Returns (); goto_retry := Returns ();
                           rendered := Returns page_fff |} 1.
Proof.
  apply (retry_is_transparent
           {| goto_first := Raises TimeoutError; goto_retry := Returns ();
              rendered := Returns page_fff |} 1 TimeoutError); reflexivity.
Defined.

Lemma str_of_Z_inj k1 k2 : str_of_Z k1 = str_of_Z k2 → k1 = k2.
Proof.
  intros H. pose proof (int_of_str_of_Z k1) as H1.
  rewrite H, int_of_str_of_Z in H1. by injection H1.
Qed.

Lemma url_of_inj base k1 k2 : url_of base k1 = url_of base k2 → k1 = k2.
Proof.
  unfold url_of. intros H. apply app_inv_head_str in H.
  apply app_inv_head_str in H. by apply str_of_Z_inj.
Qed.

(** X4.  The URL of a key determines the key: two records returned for
    different keys never carry the same [url_detail]. *)
Theorem url_detail_identifies_key (s1 s2 : Session) (k1 k2 : Z) (c1 c2 : ClubData) :
  extract_club_by_scl s1 k1 = Returns (Some c1) →
  extract_club_by_scl s2 k2 = Returns (Some c2) →
  url_detail c1 = url_detail c2 → k1 = k2.
Proof.
  intros (p1 & _ & H1)%extract_club_some (p2 & _ & H2)%extract_club_some.
  apply found_record_fields in H1 as (_ & _ & _ & ->).
  apply found_record_fields in H2 as (_ & _ & _ & ->).
  intros H. apply (url_of_inj default_base_url). congruence.
Qed.

Lemma url_detail_identifies_key_witness :
  ∃ c1 c2,
    extract_club_by_scl (session_ok page_fff) 3 = Returns (Some c1)
    ∧ extract_club_by_scl (session_ok (page_of_h1 "CLUB DISTRICT GERS")) 3
      = Returns (Some c2)
    ∧ url_detail c1 = url_detail c2 ∧ (3 : Z) = 3.
Proof.
  eexists _, _. split; [vm_compute; reflexivity|].
  split; [vm_compute; reflexivity|]. split; [vm_compute; reflexivity|].
  eapply (url_detail_identifies_key (session_ok page_fff)
            (session_ok (page_of_h1 "CLUB DISTRICT GERS")) 3 3);
    vm_compute; reflexivity.
Defined.

(** X5.  In a row stored by [scrape_range] for a key the engine processed,
    the name cell is empty exactly when no club was found: a placeholder
    is never taken for a club, nor a club for a placeholder. *)
Theorem placeholder_iff_not_found (web : Z → Session) (scl : Z)
        (result : option ClubData) (t : string) :
  engine web scl = Returns result →
  (col_nom (new_row scl result t) = "" ↔ result = None).
Proof.
  unfold engine. intros H. destruct result as [club|]; simpl; [|done].
  split; [|done]. intros E.
  apply extract_club_some in H as (p & _ & H).
  apply found_record_fields in H as (Hlen & _). rewrite E in Hlen.
  vm_compute in Hlen. done.
Qed.

Lemma placeholder_iff_not_found_witness :
  ∃ club,
    engine (λ _, session_ok page_fff) 3 = Returns (Some club)
    ∧ (col_nom (new_row 3 (Some club) "0.50") = "" ↔ Some club = None).
Proof.
  eexists. split; [vm_compute; reflexivity|].
  apply (placeholder_iff_not_found (λ _, session_ok page_fff) 3).
  vm_compute. reflexivity.
Defined.

End NavigationFacts.

(** ** The name strategies *)

Section StrategyFacts.
Import PyStr Re Scraper Store Entry Examples.

Lemma regex_is_excluded_any words t :
  (∀ w, w ∈ words → w ≠ "district") →
  regex_is_excluded words t = contains_any words t.
Proof.
  induction words as [|w words IH]; intros Hw; [done|].
  cbn [regex_is_excluded]. rewrite contains_any_cons.
  assert (Hne : String.eqb w "district" = false).
  { apply String.eqb_neq, Hw. left. }
  rewrite Hne. cbn [andb negb]. destruct (contains w t); [done|]. cbn [orb].
  apply IH. intros w' Hin. apply Hw. by right.
Qed.

(** X6.  In the pattern strategy a candidate is excluded exactly when it
    holds one of the seven listed words: the test on "district" never
    decides, because "district" is not in the list. *)
Theorem pattern_exclusion_is_word_list (t : string) :
  regex_is_excluded excluded_regex t = contains_any excluded_regex t.
Proof.
  apply regex_is_excluded_any. intros w Hin. unfold excluded_regex in Hin.
  repeat (apply elem_of_cons in Hin as [->|Hin]; [done|]).
  by apply elem_of_nil in Hin.
Qed.

Lemma has_char_lstrip a s : has_char a (lstrip s) = true → has_char a s = true.
Proof.
  induction s as [|c s IH]; [done|]. cbn [lstrip].
  destruct (isspace c); [|done]. intros H%IH. cbn [has_char].
  by rewrite H, orb_true_r.
Qed.

Lemma has_char_rstrip a s : has_char a (rstrip s) = true → has_char a s = true.
Proof.
  induction s as [|c s IH]; [done|]. cbn [rstrip has_char].
  destruct (rstrip s) as [|d r] eqn:E.
  - destruct (isspace c); [done|]. cbn [has_char]. rewrite orb_false_r.
    by intros ->.
  - cbn [has_char]. cbn [has_char] in IH.
    intros [->|H]%orb_true_iff; [done|]. by rewrite (IH H), orb_true_r.
Qed.

Lemma has_char_strip a s : has_char a (strip s) = true → has_char a s = true.
Proof. intros H. by apply has_char_lstrip, has_char_rstrip. Qed.

Lemma has_char_title_head a s :
  a = "|"%char ∨ a = "-"%char → has_char a (title_head s) = false.
Proof.
  intros Ha. induction s as [|c s IH]; [done|]. cbn [title_head].
  destruct (is_char "|" c || is_char "-" c) eqn:E; [done|].
  cbn [has_char]. rewrite IH, orb_false_r.
  apply orb_false_iff in E as [E1 E2]. unfold is_char in *.
  destruct Ha as [->| ->]; done.
Qed.

(** X7.  A name taken from the page title holds neither a vertical bar nor
    a hyphen: the title is cut at the first of them. *)
Theorem title_name_has_no_separator (p : Page) (n : string) :
  strategy_title p = Some n →
  has_char "|" n = false ∧ has_char "-" n = false.
Proof.
  unfold strategy_title. destruct (truthy (title p)); [|done].
  destruct (accept_title _); [|done]. intros [= <-].
  split; apply not_true_is_false; intros H%has_char_strip;
    rewrite has_char_title_head in H; auto; done.
Qed.

Lemma title_name_has_no_separator_witness :
  has_char "|" "AS SAINT" = false ∧ has_char "-" "AS SAINT" = false.
Proof.
  apply (title_name_has_no_separator
           {| content := ""; h1_texts := []; affil_y := None; h2_elems := [];
              other_texts := []; title := "AS SAINT-ETIENNE | FFF";
              siege_address := None |}).
  vm_compute. reflexivity.
Defined.

(** The state of the loop of lines 210-219 after the headings [l]. *)
Lemma closer_fold_spec affil_y (l : list (string * option Z)) :
  match fold_left (closer affil_y) l None with
  | Some (d, text) =>
      ∃ i h2_y, l !! i = Some (text, Some h2_y)
                ∧ d = affil_y - h2_y ∧ h2_y < affil_y ∧ d < 300
                ∧ ∀ j h2, l !! j = Some h2 → near_above affil_y h2 →
                          ∃ y', snd h2 = Some y'
                                ∧ d ≤ affil_y - y'
                                ∧ (affil_y - y' = d → (i ≤ j)%nat)
  | None => ∀ h2, h2 ∈ l → ¬ near_above affil_y h2
  end.
Proof.
  induction l as [|h2 l IH] using rev_ind.
  - simpl. by intros h2 ?%elem_of_nil.
  - rewrite fold_left_app. simpl.
    destruct (fold_left (closer affil_y) l None) as [[d text]|] eqn:E.
    + destruct IH as (i & y & Hi & Hd & Hy & Hd300 & Hmin).
      assert (Hil : (i < length l)%nat) by (by eapply lookup_lt_Some).
      assert (Hkeep :
                (∀ y', snd h2 = Some y' → y' < affil_y → affil_y - y' < 300 →
                       d ≤ affil_y - y') →
                ∃ i0 h2_y, (l ++ [h2])%list !! i0 = Some (text, Some h2_y)
                  ∧ d = affil_y - h2_y ∧ h2_y < affil_y ∧ d < 300
                  ∧ ∀ j h, (l ++ [h2])%list !! j = Some h → near_above affil_y h →
                           ∃ y', snd h = Some y' ∧ d ≤ affil_y - y'
                                 ∧ (affil_y - y' = d → (i0 ≤ j)%nat)).
      { intros Hnew. exists i, y. split; [by rewrite lookup_app_l|].
        repeat split; try done. intros j h Hj Hh.
        destruct (decide (j < length l)%nat) as [Hjl|Hjl].
        - rewrite lookup_app_l in Hj by done. by apply Hmin.
        - rewrite lookup_app_r in Hj by lia.
          apply list_lookup_singleton_Some in Hj as [_ <-].
          destruct Hh as (y' & Hy' & ? & ?). exists y'.
          split; [done|]. split; [by apply Hnew|]. intros _. lia. }
      unfold closer. destruct (snd h2) as [h2_y|] eqn:Es; [|apply Hkeep; done].
      destruct ((h2_y <? affil_y) && (affil_y - h2_y <? 300)) eqn:Eq.
      * apply andb_true_iff in Eq as [Eq1 Eq2].
        destruct (affil_y - h2_y <? d) eqn:Elt.
        -- exists (length l), h2_y.
           split; [rewrite lookup_app_r by lia; rewrite Nat.sub_diag;
                   destruct h2; simpl in *; by subst|].
           repeat split; try lia. intros j h Hj Hh.
           destruct (decide (j < length l)%nat) as [Hjl|Hjl].
           ++ rewrite lookup_app_l in Hj by done.
              destruct (Hmin j h Hj Hh) as (y' & Hy' & Hle & _).
              exists y'. split; [done|]. split; lia.
           ++ rewrite lookup_app_r in Hj by lia.
              apply list_lookup_singleton_Some in Hj as [Hj0 <-].
              exists h2_y. split; [done|]. split; lia.
        -- apply Hkeep. intros y' [= <-] _ _. lia.
      * apply Hkeep. intros y' [= <-] H1 H2.
        apply andb_false_iff in Eq as [Eq|Eq]; lia.
    + unfold closer. destruct (snd h2) as [h2_y|] eqn:Es.
      * destruct ((h2_y <? affil_y) && (affil_y - h2_y <? 300)) eqn:Eq.
        -- apply andb_true_iff in Eq as [Eq1 Eq2].
           exists (length l), h2_y.
           split; [rewrite lookup_app_r by lia; rewrite Nat.sub_diag;
                   destruct h2; simpl in *; by subst|].
           repeat split; try lia. intros j h Hj Hh.
           destruct (decide (j < length l)%nat) as [Hjl|Hjl].
           ++ rewrite lookup_app_l in Hj by done. exfalso.
              eapply IH; [|exact Hh]. by eapply list_elem_of_lookup_2.
           ++ rewrite lookup_app_r in Hj by lia.
              apply list_lookup_singleton_Some in Hj as [Hj0 <-].
              exists h2_y. split; [done|]. split; lia.
        -- intros h [Hh|Hh]%elem_of_app; [by apply IH|].
           apply list_elem_of_singleton in Hh as ->.
           intros (y' & Hy' & ? & ?). rewrite Es in Hy'. injection Hy' as <-.
           apply andb_false_iff in Eq as [Eq|Eq]; lia.
      * intros h [Hh|Hh]%elem_of_app; [by apply IH|].
        apply list_elem_of_singleton in Hh as ->.
        intros (y' & Hy' & _). by rewrite Es in Hy'.
Qed.

(** X8.  The proximity strategy examines the heading that lies above the
    marker, less than 300 from it, at the least distance, the first one
    among equals; it examines none exactly when no heading lies in that
    band. *)
Theorem closest_h2_is_nearest_above (affil_y : Z) (all_h2 : list (string * option Z)) :
  (∀ text, closest_h2 affil_y all_h2 = Some text →
     ∃ i h2_y, all_h2 !! i = Some (text, Some h2_y)
               ∧ h2_y < affil_y ∧ affil_y - h2_y < 300
               ∧ ∀ j h2, all_h2 !! j = Some h2 → near_above affil_y h2 →
                         ∃ y', snd h2 = Some y'
                               ∧ affil_y - h2_y ≤ affil_y - y'
                               ∧ (y' = h2_y → (i ≤ j)%nat))
  ∧ (closest_h2 affil_y all_h2 = None ↔
     ∀ h2, h2 ∈ all_h2 → ¬ near_above affil_y h2).
Proof.
  pose proof (closer_fold_spec affil_y all_h2) as H. unfold closest_h2.
  destruct (fold_left (closer affil_y) all_h2 None) as [[d text]|].
  - destruct H as (i & y & Hi & -> & Hy & Hd & Hmin). split.
    + intros text' [= <-]. exists i, y. repeat split; try done.
      intros j h2 Hj Hh. destruct (Hmin j h2 Hj Hh) as (y' & Hy' & Hle & Hij).
      exists y'. repeat split; try done. intros ->. by apply Hij.
    + split; [done|]. intros Hnone. exfalso.
      eapply (Hnone (text, Some y)); [by eapply list_elem_of_lookup_2|].
      exists y. simpl. auto.
  - split; [done|]. by split.
Qed.

Lemma closest_h2_is_nearest_above_witness :
  ∃ i h2_y, [("NEWS", Some 90); ("AUCH FOOTBALL", Some 350);
             ("STAFF", Some 500)] !! i = Some ("AUCH FOOTBALL", Some h2_y)
            ∧ h2_y < 400 ∧ 400 - h2_y < 300.
Proof.
  destruct (proj1 (closest_h2_is_nearest_above 400
                     [("NEWS", Some 90); ("AUCH FOOTBALL", Some 350);
                      ("STAFF", Some 500)]) "AUCH FOOTBALL" eq_refl)
    as (i & y & Hi & Hy & Hd & _).
  exists i, y. auto.
Defined.

End StrategyFacts.


(** ** The address *)

Section AddressFacts.
Import PyStr Re Scraper Store Entry Examples.

Lemma remove_tags_no_lt s :
  has_char "<" s = false → remove_tags_from false s = s.
Proof.
  induction s as [|c s IH]; [done|]. cbn [has_char remove_tags_from].
  intros [Hc Hs]%orb_false_iff. rewrite Hc. cbn [andb]. by rewrite IH.
Qed.

Lemma forallb_str_impl (p q : ascii → bool) s :
  (∀ c, p c = true → q c = true) →
  forallb_str p s = true → forallb_str q s = true.
Proof.
  intros Hpq. induction s as [|c s IH]; [done|]. cbn [forallb_str].
  intros [Hc Hs]%andb_true_iff. by rewrite (Hpq c Hc), IH.
Qed.

Lemma not_lt_no_lt s : forallb_str c_not_lt s = true → has_char "<" s = false.
Proof.
  induction s as [|c s IH]; [done|]. cbn [forallb_str has_char].
  intros [Hc Hs]%andb_true_iff. rewrite (IH Hs).
  unfold c_not_lt in Hc. apply negb_true_iff in Hc. by rewrite Hc.
Qed.

Lemma address_group_no_lt pat t m :
  pat ∈ address_patterns → search pat t = Some m →
  has_char "<" (group1 m) = false.
Proof.
  intros Hin Hm%search_group. apply not_lt_no_lt.
  unfold address_patterns in Hin.
  repeat (apply elem_of_cons in Hin as [->|Hin];
          [simpl in Hm; apply Accepts_rep_only in Hm as [Hm _]|]);
    try done.
  - eapply forallb_str_impl; [|exact Hm]. intros c. unfold c_not_lt_nl, c_not_lt.
    by destruct (is_char "<" c).
  - by apply elem_of_nil in Hin.
Qed.

Lemma collapse_idem b s :
  collapse_spaces_from b (collapse_spaces_from b s) = collapse_spaces_from b s.
Proof.
  revert b. induction s as [|c s IH]; intros b; [done|].
  cbn [collapse_spaces_from]. destruct (isspace c) eqn:Ec.
  - destruct b; [apply IH|]. cbn [collapse_spaces_from].
    change (isspace " ") with true. cbn iota. by rewrite IH.
  - cbn [collapse_spaces_from]. by rewrite Ec, IH.
Qed.

Lemma has_char_collapse a b s :
  a ≠ " "%char →
  has_char a (collapse_spaces_from b s) = true → has_char a s = true.
Proof.
  intros Ha. revert b. induction s as [|c s IH]; intros b; [done|].
  cbn [collapse_spaces_from has_char]. destruct (isspace c).
  - destruct b.
    + intros H%IH. by rewrite H, orb_true_r.
    + cbn [has_char]. intros [H|H%IH]%orb_true_iff.
      * unfold is_char in H. by apply Ascii.eqb_eq in H.
      * by rewrite H, orb_true_r.
  - cbn [has_char]. intros [->|H%IH]%orb_true_iff; [done|].
    by rewrite H, orb_true_r.
Qed.

Lemma lstrip_collapse s :
  lstrip s = s → lstrip (collapse_spaces_from false s) = collapse_spaces_from false s.
Proof.
  destruct s as [|c s]; [done|]. cbn [lstrip collapse_spaces_from].
  destruct (isspace c) eqn:Ec.
  - intros H. exfalso.
    assert (Hlen : ∀ u, (String.length (lstrip u) ≤ String.length u)%nat).
    { induction u as [|a u IH]; simpl; [lia|]. destruct (isspace a); simpl; lia. }
    specialize (Hlen s). rewrite H in Hlen. simpl in Hlen. lia.
  - intros _. cbn [lstrip]. by rewrite Ec.
Qed.

Lemma rstrip_fixed_cons c s :
  rstrip (String c s) = String c s →
  (s = "" ∧ isspace c = false) ∨ (s ≠ "" ∧ rstrip s = s).
Proof.
  cbn [rstrip]. destruct (rstrip s) as [|d r] eqn:E.
  - destruct (isspace c); [done|]. intros [= <-]. by left.
  - intros [= Hs]. right. subst s. split; [done | first [done | exact E]].
Qed.

Lemma collapse_nonempty b s :
  s ≠ "" → rstrip s = s → collapse_spaces_from b s ≠ "".
Proof.
  revert b. induction s as [|c s IH]; intros b Hne H; [done|].
  apply rstrip_fixed_cons in H as [[-> Hc]|[Hs H]].
  - cbn [collapse_spaces_from]. by rewrite Hc.
  - cbn [collapse_spaces_from]. destruct (isspace c); [|done].
    destruct b; [by apply IH | done].
Qed.

Lemma rstrip_cons_fixed c s :
  s ≠ "" → rstrip s = s → rstrip (String c s) = String c s.
Proof. intros Hne H. cbn [rstrip]. rewrite H. by destruct s. Qed.

Lemma rstrip_collapse b s :
  rstrip s = s → rstrip (collapse_spaces_from b s) = collapse_spaces_from b s.
Proof.
  revert b. induction s as [|c s IH]; intros b H; [done|].
  apply rstrip_fixed_cons in H as [[-> Hc]|[Hs H]].
  - cbn [collapse_spaces_from]. rewrite Hc. cbn [rstrip]. by rewrite Hc.
  - cbn [collapse_spaces_from]. destruct (isspace c).
    + destruct b; [by apply IH|].
      apply rstrip_cons_fixed; [by apply collapse_nonempty | by apply IH].
    + apply rstrip_cons_fixed; [by apply collapse_nonempty | by apply IH].
Qed.

Lemma strip_collapse_strip s :
  strip (collapse_spaces_from false (strip s)) = collapse_spaces_from false (strip s).
Proof.
  unfold strip at 1.
  rewrite lstrip_collapse.
  - apply rstrip_collapse. unfold strip. apply rstrip_idem.
  - unfold strip. apply lstrip_rstrip_fixed, lstrip_idem.
Qed.

(** X9.  An address taken from the markup patterns is the captured text
    with the white space at its ends removed and every run of white space
    turned into one blank: the capture never holds a "<", so removing tags
    changes nothing, and the result is left unchanged by stripping and by
    collapsing again. *)
Theorem address_capture_normal_form (pat : pattern) (t : string) (m : rmatch) :
  pat ∈ address_patterns → search pat t = Some m →
  let a := clean_address (group1 m) in
  remove_tags_from false (group1 m) = group1 m
  ∧ has_char "<" a = false
  ∧ strip a = a
  ∧ collapse_spaces_from false a = a.
Proof.
  intros Hin Hm a. pose proof (address_group_no_lt _ _ _ Hin Hm) as Hlt.
  assert (Ha : a = collapse_spaces_from false (strip (group1 m))).
  { unfold a, clean_address. by rewrite remove_tags_no_lt. }
  split; [by apply remove_tags_no_lt|]. rewrite Ha. split; [|split].
  - apply not_true_is_false. intros H%has_char_collapse; [|done].
    apply has_char_strip in H. by rewrite Hlt in H.
  - apply strip_collapse_strip.
  - apply collapse_idem.
Qed.

Lemma address_capture_normal_form_witness :
  strip (clean_address " Route de lavacant   - 32000 - AUCH ")
  = clean_address " Route de lavacant   - 32000 - AUCH ".
Proof.
  apply (address_capture_normal_form
           {| pre := lits "<b>Adresse" ++ [star isspace] ++ lits ":</b>"
                     ++ [star isspace] ++ lits "<span" ++ [star c_not_gt; Lit ">"];
              grp := [plus c_not_lt]; post := lits "</span>" |}
           "<b>Adresse :</b><span> Route de lavacant   - 32000 - AUCH </span>"
           {| group1 := " Route de lavacant   - 32000 - AUCH "; after := "" |}).
  - left.
  - vm_compute. reflexivity.
Defined.

(** The cleaned value a pattern proposes. *)
Lemma address_fallback_none pats t init :
  (∀ pat, pat ∈ pats → search pat t = None) →
  address_fallback pats t init = init.
Proof.
  induction pats as [|pat pats IH]; intros Hno; [done|]. simpl.
  rewrite (Hno pat) by left. apply IH. intros q Hq. apply Hno. by right.
Qed.

Lemma address_fallback_first_long before pat after t init m :
  (∀ q m', q ∈ before → search q t = Some m' →
           len (clean_address (group1 m')) ≤ 10) →
  search pat t = Some m → 10 < len (clean_address (group1 m)) →
  address_fallback (before ++ pat :: after)%list t init
  = Some (clean_address (group1 m)).
Proof.
  intros Hshort Hm Hlong. revert init.
  induction before as [|q before IH]; intros init; simpl.
  - rewrite Hm. by rewrite (proj2 (Z.ltb_lt _ _) Hlong).
  - assert (Hb : ∀ q' m', q' ∈ before → search q' t = Some m' →
                          len (clean_address (group1 m')) ≤ 10).
    { intros q' m' Hq'. apply Hshort. by right. }
    destruct (search q t) as [m'|] eqn:Eq; [|by apply IH].
    rewrite (proj2 (Z.ltb_ge _ _)) by (eapply Hshort; [left|done]).
    by apply IH.
Qed.

Lemma address_fallback_last_short pats before pat after t init m :
  pats = (before ++ pat :: after)%list →
  (∀ q m', q ∈ pats → search q t = Some m' →
           len (clean_address (group1 m')) ≤ 10) →
  search pat t = Some m →
  (∀ q, q ∈ after → search q t = None) →
  address_fallback pats t init = Some (clean_address (group1 m)).
Proof.
  intros -> Hshort Hm Hno. revert init.
  induction before as [|q before IH]; intros init; simpl.
  - rewrite Hm. rewrite (proj2 (Z.ltb_ge _ _)) by (eapply Hshort; [left|done]).
    by apply address_fallback_none.
  - assert (Hb : ∀ q' m', q' ∈ (before ++ pat :: after)%list →
                          search q' t = Some m' →
                          len (clean_address (group1 m')) ≤ 10).
    { intros q' m' Hq'. apply Hshort. by right. }
    destruct (search q t) as [m'|] eqn:Eq; [|by apply IH].
    rewrite (proj2 (Z.ltb_ge _ _)) by (eapply Hshort; [left|done]).
    by apply IH.
Qed.

(** X10.  Among the address patterns the first one whose cleaned capture is
    longer than ten characters decides; when none is, the capture of the
    last pattern that matches is kept although it is short; the value found
    before is kept only when no pattern matches. *)
Theorem address_fallback_choice (t : string) (init : option string) :
  (∀ before pat after m,
      address_patterns = (before ++ pat :: after)%list →
      (∀ q m', q ∈ before → search q t = Some m' →
               len (clean_address (group1 m')) ≤ 10) →
      search pat t = Some m → 10 < len (clean_address (group1 m)) →
      address_fallback address_patterns t init = Some (clean_address (group1 m)))
  ∧ (∀ before pat after m,
      address_patterns = (before ++ pat :: after)%list →
      (∀ q m', q ∈ address_patterns → search q t = Some m' →
               len (clean_address (group1 m')) ≤ 10) →
      search pat t = Some m →
      (∀ q, q ∈ after → search q t = None) →
      address_fallback address_patterns t init = Some (clean_address (group1 m)))
  ∧ ((∀ pat, pat ∈ address_patterns → search pat t = None) →
     address_fallback address_patterns t init = init).
Proof.
  split; [|split].
  - intros before pat after m -> Hshort Hm Hlong.
    by apply address_fallback_first_long.
  - intros before pat after m E Hshort Hm Hno.
    by eapply address_fallback_last_short.
  - apply address_fallback_none.
Qed.

Lemma address_fallback_choice_witness :
  address_fallback address_patterns "Adresse : Rue 1" None = Some "Rue 1".
Proof.
  change (Some "Rue 1")
    with (Some (clean_address (group1 {| group1 := "Rue 1"; after := "" |}))).
  apply (proj1 (proj2 (address_fallback_choice "Adresse : Rue 1" None))
           [nth 0 address_patterns (Pattern [] [] [])]
           (nth 1 address_patterns (Pattern [] [] []))
           [nth 2 address_patterns (Pattern [] [] [])]).
  - reflexivity.
  - intros q m' Hq Hm'. unfold address_patterns in Hq.
    repeat (apply elem_of_cons in Hq as [->|Hq];
            [vm_compute in Hm'; try discriminate; injection Hm' as <-;
             vm_compute; discriminate|]).
    by apply elem_of_nil in Hq.
  - vm_compute. reflexivity.
  - intros q Hq. apply list_elem_of_singleton in Hq as ->.
    vm_compute. reflexivity.
Defined.

End AddressFacts.


(** ** The append driver, continued *)

Section AppendMore.
Import PyStr Re Scraper Store Entry Examples.

Lemma batch_starts_nil rf max_scl bs :
  0 < bs → max_scl < rf → batch_starts rf max_scl bs = [].
Proof.
  intros Hbs Hlt. unfold batch_starts. rewrite (proj2 (Z.ltb_lt 0 bs) Hbs).
  rewrite seqZ_nil; [done|].
  assert ((max_scl + 1 - rf + bs - 1) / bs < 1); [|lia].
  apply Z.div_lt_upper_bound; lia.
Qed.

Lemma batch_starts_cons rf max_scl bs :
  0 < bs → rf ≤ max_scl →
  batch_starts rf max_scl bs = rf :: batch_starts (rf + bs) max_scl bs.
Proof.
  intros Hbs Hle. unfold batch_starts. rewrite (proj2 (Z.ltb_lt 0 bs) Hbs).
  assert (Hn : (max_scl + 1 - rf + bs - 1) / bs
               = (max_scl + 1 - (rf + bs) + bs - 1) / bs + 1).
  { rewrite <- Z.div_add by lia. f_equal. lia. }
  assert (Hpos : 0 ≤ (max_scl + 1 - (rf + bs) + bs - 1) / bs).
  { apply Z.div_pos; lia. }
  rewrite Hn, seqZ_cons by lia. rewrite fmap_cons. f_equal; [lia|].
  replace (Z.pred ((max_scl + 1 - (rf + bs) + bs - 1) / bs + 1))
    with ((max_scl + 1 - (rf + bs) + bs - 1) / bs) by lia.
  change (Z.succ 0) with (1 + 0). rewrite <- fmap_add_seqZ.
  rewrite <- list_fmap_compose. apply list_fmap_ext. intros _ i _. simpl. lia.
Qed.

Lemma visited_keys_range_aux (n : nat) rf max_scl bs :
  0 < bs → (Z.to_nat (max_scl + 1 - rf) ≤ n)%nat →
  visited_keys rf max_scl bs = seqZ rf (max_scl + 1 - rf).
Proof.
  intros Hbs. revert rf. induction n as [|n IH]; intros rf Hn.
  - unfold visited_keys. rewrite batch_starts_nil by lia.
    by rewrite seqZ_nil by lia.
  - destruct (decide (max_scl < rf)) as [Hlt|Hge].
    + unfold visited_keys. rewrite batch_starts_nil by lia.
      by rewrite seqZ_nil by lia.
    + unfold visited_keys. rewrite batch_starts_cons by lia.
      rewrite fmap_cons. cbn [concat].
      fold (visited_keys (rf + bs) max_scl bs). rewrite IH by lia.
      unfold batch_keys.
      destruct (decide (rf + bs - 1 ≤ max_scl)) as [Hfull|Hpart].
      * rewrite Z.min_l by lia.
        replace (max_scl + 1 - rf)
          with ((rf + bs - 1 + 1 - rf) + (max_scl + 1 - (rf + bs))) by lia.
        rewrite seqZ_app by lia. do 2 f_equal; lia.
      * rewrite Z.min_r by lia.
        rewrite (seqZ_nil (rf + bs)) by lia. by rewrite app_nil_r.
Qed.

Lemma visited_keys_range rf max_scl bs :
  0 < bs → visited_keys rf max_scl bs = scl_range rf max_scl.
Proof. intros Hbs. by eapply visited_keys_range_aux. Qed.

(** X11.  The size of the batches has no effect on the keys the append
    driver visits: for every positive batch size they are the keys from the
    resume point to the maximum, each once, in ascending order. *)
Theorem batch_size_is_immaterial (resume_from max_scl batch_size : Z) :
  0 < batch_size →
  visited_keys resume_from max_scl batch_size
  = seqZ resume_from (max_scl + 1 - resume_from).
Proof. apply visited_keys_range. Qed.

Lemma batch_size_is_immaterial_witness :
  visited_keys 4 11 3 = seqZ 4 (11 + 1 - 4).
Proof. apply (batch_size_is_immaterial 4 11 3). lia. Defined.

Lemma StronglySorted_seqZ m n : StronglySorted Z.lt (seqZ m n).
Proof.
  destruct (decide (n ≤ 0)) as [Hn|Hn]; [rewrite seqZ_nil by done; constructor|].
  rewrite <- (Z2Nat.id n) by lia. generalize (Z.to_nat n) as k. clear.
  intros k. revert m. induction k as [|k IH]; intros m; [constructor|].
  rewrite seqZ_cons by lia. constructor.
  - replace (Z.pred (Z.of_nat (S k))) with (Z.of_nat k) by lia. apply IH.
  - apply Forall_forall. intros x Hx%elem_of_seqZ. lia.
Qed.








End AppendMore.


Section AppendInterrupt.
Import PyStr Re Scraper Store Entry Examples.

Lemma append_loop_app scrape (ex : gset Z) l1 l2 r :
  (∀ j, j ∈ l1 → scrape j ≠ Raises KeyboardInterrupt) →
  append_loop scrape ex (l1 ++ l2) r
  = append_loop scrape ex l2 (append_loop scrape ex l1 r).
Proof.
  revert r. induction l1 as [|scl l1 IH]; intros r Hno; [done|]. simpl.
  assert (Hno' : ∀ j, j ∈ l1 → scrape j ≠ Raises KeyboardInterrupt).
  { intros j Hj. apply Hno. by right. }
  case_decide; [by apply IH|].
  destruct (scrape scl) as [[club|]|e] eqn:E; try by apply IH.
  destruct e; simpl; try by apply IH.
  exfalso. eapply Hno; [left | done].
Qed.

Lemma append_loop_uninterrupted scrape (ex : gset Z) l r :
  (∀ j, j ∈ l → scrape j ≠ Raises KeyboardInterrupt) →
  interrupted r = false →
  interrupted (append_loop scrape ex l r) = false.
Proof.
  revert r. induction l as [|scl l IH]; intros r Hno Hr; [done|]. simpl.
  assert (Hno' : ∀ j, j ∈ l → scrape j ≠ Raises KeyboardInterrupt).
  { intros j Hj. apply Hno. by right. }
  case_decide; [by apply IH|].
  destruct (scrape scl) as [[club|]|e] eqn:E; try by apply IH.
  destruct e; simpl; try by apply IH.
  exfalso. eapply Hno; [left | done].
Qed.

(** X14.  A user interruption that reaches the append driver while key [k]
    is processed leaves the rows of a complete run up to [k - 1]: nothing
    written before is lost and nothing is written for [k] or after it. *)
Theorem interrupted_run_is_run_to_previous_key
        (max_scl batch_size : Z) (prior : option CsvFile) (resume_from : Z)
        (scrape : Z → outcome (option ClubData)) (k : Z) :
  0 < batch_size →
  snd (resume_state prior resume_from) ≤ k ≤ max_scl →
  k ∉ fst (resume_state prior resume_from) →
  scrape k = Raises KeyboardInterrupt →
  (∀ j, j < k → scrape j ≠ Raises KeyboardInterrupt) →
  let run := run_all max_scl batch_size prior resume_from scrape in
  let short := run_all (k - 1) batch_size prior resume_from scrape in
  interrupted run = true ∧ interrupted short = false
  ∧ written run = written short
  ∧ scrape_all_to_csv max_scl batch_size prior resume_from scrape
    = scrape_all_to_csv (k - 1) batch_size prior resume_from scrape.
Proof.
  intros Hbs Hk Hex Hint Hno run short.
  assert (Hrun : run = {| written := written short;
                          fetched := (fetched short ++ [k])%list;
                          interrupted := true |}
                 ∧ interrupted short = false).
  { unfold run, short, run_all.
    destruct (resume_state prior resume_from) as [ex rf]. simpl in Hk, Hex.
    rewrite !visited_keys_range by done.
    rewrite (scl_range_split rf max_scl k) by lia.
    assert (Hl1 : scl_range rf k = (scl_range rf (k - 1) ++ [k])%list).
    { unfold scl_range. replace (k + 1 - rf) with ((k - 1 + 1 - rf) + 1) by lia.
      rewrite seqZ_app by lia. f_equal.
      replace (rf + (k - 1 + 1 - rf)) with k by lia. done. }
    rewrite Hl1, <- app_assoc.
    assert (Hbefore : ∀ j, j ∈ scl_range rf (k - 1) →
                           scrape j ≠ Raises KeyboardInterrupt).
    { intros j Hj%elem_of_scl_range. apply Hno. lia. }
    rewrite append_loop_app by done. simpl.
    rewrite decide_False by done. rewrite Hint. simpl.
    split; [done|]. by apply append_loop_uninterrupted. }
  destruct Hrun as [Hrun Hshort].
  assert (Hw : written run = written short) by (by rewrite Hrun).
  split; [by rewrite Hrun|]. split; [done|]. split; [done|].
  unfold scrape_all_to_csv. fold run. fold short. by rewrite Hw.
Qed.

Lemma interrupted_run_is_run_to_previous_key_witness :
  written (run_all 3 1000 None 1 (engine web_interrupt_first_at_2))
  = written (run_all (2 - 1) 1000 None 1 (engine web_interrupt_first_at_2)).
Proof.
  apply (interrupted_run_is_run_to_previous_key 3 1000 None 1
           (engine web_interrupt_first_at_2) 2).
  - lia.
  - simpl. lia.
  - simpl. apply not_elem_of_empty.
  - vm_compute. reflexivity.
  - intros j Hj. unfold engine, web_interrupt_first_at_2.
    rewrite (proj2 (Z.eqb_neq j 2)) by lia. vm_compute. discriminate.
Defined.




End AppendInterrupt.


(** ** The overwrite-by-key store, continued *)

Section RangeMore.
Import PyStr Re Scraper Store Entry Examples.
Implicit Types (m : gmap Z Row) (k j : Z) (row : Row).




Lemma filed_inv_key_inv m : filed_inv m → key_inv m.
Proof. intros H k row Hrow. by apply range_key_row_key, H. Qed.














(** *** Writing through and writing at the end *)

Lemma write_through_acc scrape club_time l w :
  write_through scrape club_time l w
  = (w ++ write_through scrape club_time l [])%list.
Proof.
  revert w. induction l as [|scl l IH]; intros w; simpl; [by rewrite app_nil_r|].
  destruct (scrape scl) as [[club|]|e].
  - rewrite IH, (IH [_]). by rewrite <- app_assoc.
  - rewrite IH, (IH [_]). by rewrite <- app_assoc.
  - destruct (is_Exception e); [apply IH | by rewrite app_nil_r].
Qed.

Lemma sorted_keys_insert_last m k row :
  (∀ j, is_Some (m !! j) → j < k) →
  sorted_keys (<[k := row]> m) = (sorted_keys m ++ [k])%list.
Proof.
  intros Hlt. apply (StronglySorted_unique_strong Z.lt).
  - intros x y _ _ Hxy Hyx. lia.
  - apply sorted_keys_sorted.
  - apply StronglySorted_app_2; [|apply sorted_keys_sorted|repeat constructor].
    intros x y Hx%sorted_keys_elem Hy%list_elem_of_singleton. subst.
    by apply Hlt.
  - apply NoDup_Permutation.
    + apply sorted_keys_NoDup.
    + apply NoDup_app. split; [apply sorted_keys_NoDup|].
      split; [|apply NoDup_singleton].
      intros x Hx%sorted_keys_elem Hy%list_elem_of_singleton. subst.
      specialize (Hlt _ Hx). lia.
    + intros x. rewrite elem_of_app, !sorted_keys_elem, list_elem_of_singleton.
      rewrite lookup_insert_is_Some. destruct (decide (k = x)) as [->|Hne].
      * split; [by right | by left].
      * split.
        -- intros [Heq|[_ Hx]]; [done | by left].
        -- intros [Hx|Heq]; [by right | done].
Qed.

Lemma omap_lookup_ext m m' (ks : list Z) :
  (∀ j, j ∈ ks → m !! j = m' !! j) →
  omap (λ j, m !! j) ks = omap (λ j, m' !! j) ks.
Proof.
  induction ks as [|j ks IH]; intros H; [done|]. csimpl.
  rewrite (H j) by left. rewrite IH; [done|]. intros i Hi. apply H. by right.
Qed.

Lemma rows_insert_last m k row :
  (∀ j, is_Some (m !! j) → j < k) →
  rows (write_all (<[k := row]> m)) = (rows (write_all m) ++ [row])%list.
Proof.
  intros Hlt. unfold write_all. simpl. rewrite sorted_keys_insert_last by done.
  rewrite omap_app. csimpl. rewrite lookup_insert_eq. f_equal.
  apply omap_lookup_ext. intros j Hj%sorted_keys_elem.
  rewrite lookup_insert_ne; [done|]. specialize (Hlt _ Hj). lia.
Qed.

Lemma write_at_end_is_write_through scrape club_time l m :
  StronglySorted Z.lt l →
  (∀ j k, is_Some (m !! j) → k ∈ l → j < k) →
  rows (write_all (scrape_loop scrape club_time l m))
  = (rows (write_all m) ++ write_through scrape club_time l [])%list.
Proof.
  intros Hs. revert m.
  induction Hs as [|scl l Hs IH Hlt]; intros m Hm; cbn [scrape_loop write_through].
  - by rewrite app_nil_r.
  - rewrite Forall_forall in Hlt.
    assert (Hm' : ∀ j k, is_Some (m !! j) → k ∈ l → j < k).
    { intros j k Hj Hk. apply Hm; [done | by right]. }
    assert (Hins : ∀ row j k, is_Some (<[scl := row]> m !! j) → k ∈ l → j < k).
    { intros row j k [->|[_ Hj]]%lookup_insert_is_Some Hk;
        [by apply Hlt | by apply Hm']. }
    assert (Hscl : ∀ j, is_Some (m !! j) → j < scl).
    { intros j Hj. apply Hm; [done | left]. }
    destruct (scrape scl) as [[club|]|e].
    + rewrite IH by apply Hins. rewrite rows_insert_last by done.
      rewrite (write_through_acc _ _ l (_ ++ _)%list). by rewrite <- app_assoc.
    + rewrite IH by apply Hins. rewrite rows_insert_last by done.
      rewrite (write_through_acc _ _ l (_ ++ _)%list). by rewrite <- app_assoc.
    + destruct (is_Exception e); [by apply IH | by rewrite app_nil_r].
Qed.

(** X18.  [test_50_clubs], which writes each row as soon as its key is
    processed, leaves the file that [scrape_range] writes at its end for the
    keys 5000 to 5050 when there is no prior file. *)
Theorem test_file_is_range_file (scrape : Z → outcome (option ClubData))
        (club_time : Z → string) :
  test_50_clubs scrape club_time = scrape_range 5000 5050 None scrape club_time.
Proof.
  assert (H : rows (write_all (scrape_loop scrape club_time (scl_range 5000 5050) ∅))
              = write_through scrape club_time (scl_range 5000 5050) []).
  { rewrite write_at_end_is_write_through.
    - assert (E : sorted_keys ∅ = []).
      { destruct (sorted_keys ∅) as [|k ks] eqn:E; [done|].
        assert (Hk : k ∈ sorted_keys (∅ : gmap Z Row)) by (rewrite E; left).
        apply sorted_keys_elem in Hk. rewrite lookup_empty in Hk.
        by destruct Hk. }
      unfold write_all. simpl rows. by rewrite E.
    - apply StronglySorted_seqZ.
    - intros j k [row Hrow]. by rewrite lookup_empty in Hrow. }
  unfold test_50_clubs, scrape_range, merged_data. rewrite <- H. done.
Qed.

End RangeMore.


(** ** The method [SCLScraper.scrape_range] *)

Section MethodFacts.
Import PyStr Re Scraper Store Entry Examples.
Implicit Types (scrape : Z → outcome (option ClubData)) (k j : Z).

Lemma collect_clubs_returns scrape progress_interval keys clubs_data :
  progress_interval ≠ 0 →
  (∀ k e, k ∈ keys → scrape k ≠ Raises e) →
  collect_clubs scrape progress_interval keys clubs_data
  = Returns (clubs_data ++ omap (found_club scrape) keys)%list.
Proof.
  intros Hp. revert clubs_data.
  induction keys as [|scl keys IH]; intros clubs_data Hno; cbn [collect_clubs].
  - by rewrite app_nil_r.
  - apply Z.eqb_neq in Hp as Hp'. rewrite Hp'.
    assert (Hno' : ∀ k e, k ∈ keys → scrape k ≠ Raises e).
    { intros k e Hk. apply Hno. by right. }
    csimpl. pose proof (eq_refl (found_club scrape scl)) as Hf.
    unfold found_club at 2 in Hf.
    destruct (scrape scl) as [[club_data|]|e] eqn:E; rewrite Hf.
    + rewrite IH by done. by rewrite <- app_assoc.
    + by rewrite IH.
    + exfalso. apply (Hno scl e); [left | done].
Qed.

Lemma collect_clubs_raises scrape progress_interval l1 k l2 e clubs_data :
  progress_interval ≠ 0 →
  (∀ j e', j ∈ l1 → scrape j ≠ Raises e') →
  scrape k = Raises e →
  collect_clubs scrape progress_interval (l1 ++ k :: l2) clubs_data = Raises e.
Proof.
  intros Hp. apply Z.eqb_neq in Hp as Hp'. revert clubs_data.
  induction l1 as [|scl l1 IH]; intros clubs_data Hno Hk; cbn [collect_clubs app].
  - by rewrite Hp', Hk.
  - rewrite Hp'.
    assert (Hno' : ∀ j e', j ∈ l1 → scrape j ≠ Raises e').
    { intros j e' Hj. apply Hno. by right. }
    destruct (scrape scl) as [[club_data|]|e'] eqn:E; [by apply IH..|].
    exfalso. apply (Hno scl e'); [left | done].
Qed.

(** X19.  With a progress interval other than zero and an engine that
    raises for no key of the range, [SCLScraper.scrape_range] returns the
    clubs found for the keys from [start_scl] to [end_scl], one per found
    key, in ascending key order. *)
Theorem method_returns_found_clubs scrape (start_scl end_scl progress_interval : Z) :
  progress_interval ≠ 0 →
  (∀ k e, start_scl ≤ k ≤ end_scl → scrape k ≠ Raises e) →
  scraper_scrape_range scrape start_scl end_scl progress_interval
  = Returns (omap (found_club scrape) (scl_range start_scl end_scl)).
Proof.
  intros Hp Hno. unfold scraper_scrape_range.
  rewrite collect_clubs_returns; [done | done |].
  intros k e Hk%elem_of_scl_range. by apply Hno.
Qed.

Lemma method_returns_found_clubs_witness :
  scraper_scrape_range (engine (λ _, session_ok (page_of_h1 "CLUB DISTRICT GERS"))) 4 6 100
  = Returns (omap (found_club (engine (λ _, session_ok (page_of_h1 "CLUB DISTRICT GERS"))))
                  (scl_range 4 6)).
Proof.
  apply (method_returns_found_clubs
           (engine (λ _, session_ok (page_of_h1 "CLUB DISTRICT GERS"))) 4 6 100).
  - lia.
  - intros k e _. vm_compute. discriminate.
Defined.

(** X20.  The method has no handler of its own: when the engine raises at
    a key of the range, after keys for which it returned, the method ends
    with that exception and the clubs collected so far are not returned. *)
Theorem method_exception_loses_clubs scrape (start_scl end_scl progress_interval : Z)
        (k : Z) (e : exn) :
  progress_interval ≠ 0 →
  start_scl ≤ k ≤ end_scl →
  (∀ j e', start_scl ≤ j < k → scrape j ≠ Raises e') →
  scrape k = Raises e →
  scraper_scrape_range scrape start_scl end_scl progress_interval = Raises e.
Proof.
  intros Hp Hk Hno He. unfold scraper_scrape_range.
  assert (Hsplit : scl_range start_scl end_scl
                   = (scl_range start_scl (k - 1) ++ k :: scl_range (k + 1) end_scl)%list).
  { unfold scl_range.
    replace (end_scl + 1 - start_scl)
      with ((k - 1 + 1 - start_scl) + (1 + (end_scl + 1 - (k + 1)))) by lia.
    rewrite seqZ_app by lia. f_equal.
    rewrite seqZ_cons by lia. f_equal; [lia|]. f_equal; lia. }
  rewrite Hsplit. apply collect_clubs_raises; [done | | done].
  intros j e' Hj%elem_of_scl_range. apply Hno. lia.
Qed.

Lemma method_exception_loses_clubs_witness :
  scraper_scrape_range (engine web_interrupt_first_at_2) 1 3 100
  = Raises KeyboardInterrupt.
Proof.
  apply (method_exception_loses_clubs (engine web_interrupt_first_at_2) 1 3 100 2).
  - lia.
  - lia.
  - intros j e' Hj. assert (j = 1) as -> by lia. vm_compute. discriminate.
  - vm_compute. reflexivity.
Defined.

(** X21.  A zero progress interval makes the method fail on the progress
    test of the first key, before the engine is called: whatever the engine
    does, a non-empty range ends in the division error. *)
Theorem method_zero_interval_fails scrape (start_scl end_scl : Z) :
  start_scl ≤ end_scl →
  scraper_scrape_range scrape start_scl end_scl 0 = Raises OtherError.
Proof.
  intros Hle. unfold scraper_scrape_range, scl_range.
  rewrite seqZ_cons by lia. done.
Qed.

Lemma method_zero_interval_fails_witness :
  scraper_scrape_range none_found 1 3 0 = Raises OtherError.
Proof. apply (method_zero_interval_fails none_found 1 3). lia. Defined.

Lemma append_loop_fresh_rows scrape keys r :
  (∀ k e, k ∈ keys → scrape k ≠ Raises e) →
  written (append_loop scrape ∅ keys r)
  = (written r ++ omap (λ k, club_row k <$> found_club scrape k) keys)%list.
Proof.
  revert r. induction keys as [|scl keys IH]; intros r Hno; cbn [append_loop].
  - by rewrite app_nil_r.
  - assert (Hno' : ∀ k e, k ∈ keys → scrape k ≠ Raises e).
    { intros k e Hk. apply Hno. by right. }
    rewrite decide_False by apply not_elem_of_empty. csimpl.
    pose proof (eq_refl (found_club scrape scl)) as Hf.
    unfold found_club at 2 in Hf.
    destruct (scrape scl) as [[club_data|]|e] eqn:E; rewrite Hf.
    + rewrite IH by done. simpl. by rewrite <- app_assoc.
    + rewrite IH by done. done.
    + exfalso. apply (Hno scl e); [left | done].
Qed.

Lemma rows_clubs_Forall2 scrape keys :
  Forall2 (λ row club_data, ∃ scl, scl ∈ keys ∧ row = club_row scl club_data)
          (omap (λ k, club_row k <$> found_club scrape k) keys)
          (omap (found_club scrape) keys).
Proof.
  induction keys as [|scl keys IH]; [constructor|]. csimpl.
  assert (IH' : Forall2 (λ row club_data,
                  ∃ scl0, scl0 ∈ scl :: keys ∧ row = club_row scl0 club_data)
                  (omap (λ k, club_row k <$> found_club scrape k) keys)
                  (omap (found_club scrape) keys)).
  { eapply Forall2_impl; [exact IH|]. intros row c (s & Hs & ->).
    exists s. split; [by right | done]. }
  destruct (found_club scrape scl) as [club_data|]; simpl; [|done].
  constructor; [|done]. exists scl. split; [left | done].
Qed.

(** X22.  On a fresh output file and without an exception of the engine,
    the append driver and the method report the same clubs: the rows
    [scrape_all_to_csv] writes for the keys from [start_scl] to [end_scl]
    are, in order, the rows of the clubs [SCLScraper.scrape_range]
    returns for that range, each under a key of the range. *)
Theorem drivers_report_same_clubs scrape (start_scl end_scl batch_size progress_interval : Z) :
  0 < batch_size →
  progress_interval ≠ 0 →
  (∀ k e, start_scl ≤ k ≤ end_scl → scrape k ≠ Raises e) →
  ∃ clubs_data,
    scraper_scrape_range scrape start_scl end_scl progress_interval = Returns clubs_data
    ∧ Forall2 (λ row club_data,
                 ∃ scl, start_scl ≤ scl ≤ end_scl ∧ row = club_row scl club_data)
              (rows (scrape_all_to_csv end_scl batch_size None start_scl scrape))
              clubs_data.
Proof.
  intros Hbs Hp Hno.
  assert (Hno' : ∀ k e, k ∈ scl_range start_scl end_scl → scrape k ≠ Raises e).
  { intros k e Hk%elem_of_scl_range. by apply Hno. }
  exists (omap (found_club scrape) (scl_range start_scl end_scl)). split.
  - unfold scraper_scrape_range. by rewrite collect_clubs_returns.
  - unfold scrape_all_to_csv, run_all, resume_state. cbn [rows].
    rewrite visited_keys_range by done.
    rewrite append_loop_fresh_rows by done. cbn [written app].
    eapply Forall2_impl; [apply rows_clubs_Forall2|].
    intros row c (s & Hs%elem_of_scl_range & ->). by exists s.
Qed.

Lemma drivers_report_same_clubs_witness :
  ∃ clubs_data,
    scraper_scrape_range (engine (λ _, session_ok (page_of_h1 "CLUB DISTRICT GERS")))
                         4 6 100 = Returns clubs_data
    ∧ Forall2 (λ row club_data, ∃ scl, 4 ≤ scl ≤ 6 ∧ row = club_row scl club_data)
              (rows (scrape_all_to_csv 6 2 None 4
                       (engine (λ _, session_ok (page_of_h1 "CLUB DISTRICT GERS")))))
              clubs_data.
Proof.
  apply (drivers_report_same_clubs
           (engine (λ _, session_ok (page_of_h1 "CLUB DISTRICT GERS"))) 4 6 2 100).
  - lia.
  - lia.
  - intros k e _. vm_compute. discriminate.
Defined.

End MethodFacts.


(** ** The district table ([verify_districts.py]) *)

Section DistrictFacts.
Import PyStr Scraper Districts.
Implicit Types (get : string → outcome nat) (name url : string).

Lemma verify_url_true get url :
  verify_url get url = Returns true ↔ get url = Returns 200%nat.
Proof.
  unfold verify_url. destruct (get url) as [n|e].
  - split.
    + intros [= H%Nat.eqb_eq]. by subst.
    + intros [= ->]. done.
  - destruct (is_Exception e); split; discriminate.
Qed.

Lemma verify_url_returns get url :
  (∀ e, get url = Raises e → is_Exception e = true) →
  ∃ ok, verify_url get url = Returns ok.
Proof.
  intros Hno. unfold verify_url. destruct (get url) as [n|e]; [by eexists|].
  rewrite (Hno e eq_refl). by eexists.
Qed.

Lemma try_variantes_spec get base_name variantes :
  get (district_url base_name) ≠ Returns 200%nat →
  (∀ name e, name ∈ variantes → get (district_url name) = Raises e →
             is_Exception e = true) →
  ∃ r, try_variantes get base_name variantes = Returns r
       ∧ match r with
         | Some url =>
             ∃ l1 name l2, variantes = (l1 ++ name :: l2)%list
                           ∧ url = district_url name
                           ∧ get url = Returns 200%nat
                           ∧ ∀ n, n ∈ l1 → get (district_url n) ≠ Returns 200%nat
         | None => ∀ n, n ∈ variantes → get (district_url n) ≠ Returns 200%nat
         end.
Proof.
  intros Hbase. induction variantes as [|variante rest IH]; intros Hno.
  - exists None. split; [done|]. intros n Hn. by apply elem_of_nil in Hn.
  - assert (Hno' : ∀ name e, name ∈ rest → get (district_url name) = Raises e →
                             is_Exception e = true).
    { intros name e Hn. apply Hno. by right. }
    destruct (IH Hno') as (r & Hr & Hspec).
    assert (Hext : get (district_url variante) ≠ Returns 200%nat →
              ∃ r', Returns r = Returns r'
                    ∧ match r' with
                      | Some url =>
                          ∃ l1 name l2, variante :: rest = (l1 ++ name :: l2)%list
                            ∧ url = district_url name
                            ∧ get url = Returns 200%nat
                            ∧ ∀ n, n ∈ l1 → get (district_url n) ≠ Returns 200%nat
                      | None => ∀ n, n ∈ variante :: rest →
                                     get (district_url n) ≠ Returns 200%nat
                      end).
    { intros Hv. exists r. split; [done|]. destruct r as [url|].
      - destruct Hspec as (l1 & name & l2 & -> & -> & Hok & Hl1).
        exists (variante :: l1), name, l2. split; [done|]. split; [done|].
        split; [done|]. intros n [->|Hn]%elem_of_cons; [done | by apply Hl1].
      - intros n [->|Hn]%elem_of_cons; [done | by apply Hspec]. }
    cbn [try_variantes]. destruct (String.eqb variante base_name) eqn:Eq; cbn [negb].
    + apply String.eqb_eq in Eq. subst variante. rewrite Hr. by apply Hext.
    + destruct (verify_url_returns get (district_url variante)) as [ok Hok].
      { intros e. apply Hno. left. }
      rewrite Hok. destruct ok.
      * exists (Some (district_url variante)). split; [done|].
        exists [], variante, rest. split; [done|]. split; [done|].
        split; [by apply verify_url_true|].
        intros n Hn. by apply elem_of_nil in Hn.
      * rewrite Hr. apply Hext. intros H200. apply verify_url_true in H200.
        congruence.
Qed.

Lemma find_valid_url_spec get district_name base_name :
  (∀ name e, name ∈ candidates district_name base_name →
             get (district_url name) = Raises e → is_Exception e = true) →
  ∃ r, find_valid_url get district_name base_name = Returns r
       ∧ match r with
         | Some url =>
             ∃ l1 name l2,
               candidates district_name base_name = (l1 ++ name :: l2)%list
               ∧ url = district_url name
               ∧ get url = Returns 200%nat
               ∧ ∀ n, n ∈ l1 → get (district_url n) ≠ Returns 200%nat
         | None => ∀ n, n ∈ candidates district_name base_name →
                        get (district_url n) ≠ Returns 200%nat
         end.
Proof.
  intros Hno. unfold find_valid_url.
  destruct (verify_url_returns get (district_url base_name)) as [ok Hok].
  { intros e. apply Hno. left. }
  rewrite Hok. destruct ok.
  - exists (Some (district_url base_name)). split; [done|].
    exists [], base_name, (default [] (dict_get VARIANTES district_name)).
    split; [done|]. split; [done|]. split; [by apply verify_url_true|].
    intros n Hn. by apply elem_of_nil in Hn.
  - assert (Hbase : get (district_url base_name) ≠ Returns 200%nat).
    { intros H200. apply verify_url_true in H200. congruence. }
    unfold candidates in *.
    destruct (dict_get VARIANTES district_name) as [variantes|]; cbn [default] in *.
    + destruct (try_variantes_spec get base_name variantes Hbase) as (r & Hr & Hspec).
      { intros name e Hn. apply Hno. by right. }
      exists r. split; [done|]. destruct r as [url|].
      * destruct Hspec as (l1 & name & l2 & -> & -> & H200 & Hl1).
        exists (base_name :: l1), name, l2. split; [done|]. split; [done|].
        split; [done|]. intros n [->|Hn]%elem_of_cons; [done | by apply Hl1].
      * intros n [->|Hn]%elem_of_cons; [done | by apply Hspec].
    + exists None. split; [done|].
      intros n [->|Hn]%elem_of_cons; [done | by apply elem_of_nil in Hn].
Qed.

(** X23.  When no request is interrupted, [find_valid_url] returns, and it
    returns the address of the first name, among the base name followed by
    the variants of the district, whose address answers with status 200;
    it returns [None] exactly when no such name answers so. *)
Theorem first_answering_candidate get (district_name base_name : string) :
  (∀ name e, name ∈ candidates district_name base_name →
             get (district_url name) = Raises e → is_Exception e = true) →
  ∃ r, find_valid_url get district_name base_name = Returns r
       ∧ match r with
         | Some url =>
             ∃ l1 name l2,
               candidates district_name base_name = (l1 ++ name :: l2)%list
               ∧ url = district_url name
               ∧ get url = Returns 200%nat
               ∧ ∀ n, n ∈ l1 → get (district_url n) ≠ Returns 200%nat
         | None => ∀ n, n ∈ candidates district_name base_name →
                        get (district_url n) ≠ Returns 200%nat
         end.
Proof. apply find_valid_url_spec. Qed.

Lemma first_answering_candidate_witness :
  ∃ r, find_valid_url
         (λ url, if String.eqb url "https://idf.fff.fr/les-clubs/"
                 then Returns 200%nat else Raises TimeoutError)
         "Paris_IDF" "paris-idf" = Returns r
       ∧ match r with
         | Some url =>
             ∃ l1 name l2,
               candidates "Paris_IDF" "paris-idf" = (l1 ++ name :: l2)%list
               ∧ url = district_url name
               ∧ (if String.eqb url "https://idf.fff.fr/les-clubs/"
                  then Returns 200%nat else Raises TimeoutError) = Returns 200%nat
               ∧ ∀ n, n ∈ l1 →
                   (if String.eqb (district_url n) "https://idf.fff.fr/les-clubs/"
                    then Returns 200%nat else Raises TimeoutError) ≠ Returns 200%nat
         | None => ∀ n, n ∈ candidates "Paris_IDF" "paris-idf" →
                     (if String.eqb (district_url n) "https://idf.fff.fr/les-clubs/"
                      then Returns 200%nat else Raises TimeoutError) ≠ Returns 200%nat
         end.
Proof.
  apply (first_answering_candidate
           (λ url, if String.eqb url "https://idf.fff.fr/les-clubs/"
                   then Returns 200%nat else Raises TimeoutError)
           "Paris_IDF" "paris-idf").
  intros name e _. destruct (String.eqb _ _); [discriminate|].
  intros [= <-]. reflexivity.
Defined.

Lemma dict_set_fresh {V : Type} (d : list (string * V)) key (value : V) :
  key ∉ d.*1 → dict_set d key value = (d ++ [(key, value)])%list.
Proof.
  induction d as [|[k v] d IH]; intros Hk; [done|]. cbn [dict_set app].
  rewrite fmap_cons, not_elem_of_cons in Hk. destruct Hk as [Hne Hk].
  destruct (String.eqb k key) eqn:Eq.
  - apply String.eqb_eq in Eq. by subst.
  - by rewrite IH.
Qed.

Lemma DISTRICTS_keys_NoDup : NoDup (DISTRICTS.*1).
Proof. apply (bool_decide_unpack _). vm_compute. exact I. Qed.

Lemma truthy_district_url name : truthy (district_url name) = true.
Proof. reflexivity. Qed.

Lemma verify_items_spec get items valid_districts :
  (∀ url e, get url = Raises e → is_Exception e = true) →
  NoDup (items.*1) →
  (∀ d, d ∈ valid_districts.*1 → d ∉ items.*1) →
  ∃ found,
    verify_items get items valid_districts = Returns (valid_districts ++ found)%list
    ∧ sublist (found.*1) (items.*1)
    ∧ (∀ d url, (d, url) ∈ found →
         get url = Returns 200%nat
         ∧ ∃ b name, (d, b) ∈ items ∧ name ∈ candidates d b ∧ url = district_url name)
    ∧ (∀ d b name, (d, b) ∈ items → name ∈ candidates d b →
         get (district_url name) = Returns 200%nat → d ∈ found.*1).
Proof.
  intros Hno. revert valid_districts.
  induction items as [|[district_name base_name] rest IH];
    intros valid_districts Hnd Hfresh.
  - exists []. rewrite app_nil_r. split; [done|]. split; [done|].
    split; [intros d url Hin; by apply elem_of_nil in Hin|].
    intros d b name Hin. by apply elem_of_nil in Hin.
  - rewrite fmap_cons in Hnd. apply NoDup_cons in Hnd as [Hnotin Hnd].
    cbn [verify_items].
    destruct (find_valid_url_spec get district_name base_name) as (r & Hr & Hspec).
    { intros name e _. apply Hno. }
    rewrite Hr. destruct r as [url|].
    + assert (Hurl : truthy url = true).
      { destruct Hspec as (_ & name & _ & _ & -> & _). apply truthy_district_url. }
      rewrite Hurl.
      assert (Hd : district_name ∉ valid_districts.*1).
      { intros Hin. apply (Hfresh _ Hin). rewrite fmap_cons. left. }
      rewrite dict_set_fresh by done.
      destruct (IH (valid_districts ++ [(district_name, url)])%list Hnd)
        as (found & Hfound & Hsub & Hsound & Hcompl).
      { intros d. rewrite fmap_app, elem_of_app. intros [Hin|Hin].
        - intros Hr'. apply (Hfresh _ Hin). rewrite fmap_cons. by right.
        - apply list_elem_of_singleton in Hin. simpl in Hin. by subst. }
      exists ((district_name, url) :: found). rewrite Hfound, <- app_assoc.
      split; [done|]. split; [|split].
      * rewrite !fmap_cons. by apply sublist_skip.
      * intros d u [[= -> ->]|Hin]%elem_of_cons.
        -- destruct Hspec as (l1 & name & l2 & Hc & -> & H200 & _).
           split; [done|]. exists base_name, name. split; [left|].
           split; [|done]. rewrite Hc. apply elem_of_app. right. left.
        -- destruct (Hsound d u Hin) as (H200 & b & name & Hb & Hn & ->).
           split; [done|]. exists b, name. split; [by right | done].
      * intros d b name [[= -> ->]|Hin]%elem_of_cons Hn H200.
        -- rewrite fmap_cons. left.
        -- rewrite fmap_cons. right. by eapply Hcompl.
    + destruct (IH valid_districts Hnd) as (found & Hfound & Hsub & Hsound & Hcompl).
      { intros d Hin Hr'. apply (Hfresh _ Hin). rewrite fmap_cons. by right. }
      exists found. split; [done|]. split; [|split].
      * rewrite fmap_cons. by apply sublist_cons.
      * intros d u Hin.
        destruct (Hsound d u Hin) as (H200 & b & name & Hb & Hn & ->).
        split; [done|]. exists b, name. split; [by right | done].
      * intros d b name [[= -> ->]|Hin]%elem_of_cons Hn H200.
        -- exfalso. by apply (Hspec name).
        -- by eapply Hcompl.
Qed.

(** X24.  When no request is interrupted, [generate_districts_json] returns
    a dictionary whose keys are district names of the table, each once and
    in the order of the table; every address it stores answered with status
    200 and is the address of the base name or of a variant of its
    district; and every district one of whose names answers with status 200
    is in the dictionary. *)
Theorem valid_districts_are_verified get :
  (∀ url e, get url = Raises e → is_Exception e = true) →
  ∃ valid_districts,
    generate_districts_json get = Returns valid_districts
    ∧ sublist (valid_districts.*1) (DISTRICTS.*1)
    ∧ (∀ d url, (d, url) ∈ valid_districts →
         get url = Returns 200%nat
         ∧ ∃ b name, (d, b) ∈ DISTRICTS ∧ name ∈ candidates d b
                     ∧ url = district_url name)
    ∧ (∀ d b name, (d, b) ∈ DISTRICTS → name ∈ candidates d b →
         get (district_url name) = Returns 200%nat → d ∈ valid_districts.*1).
Proof.
  intros Hno. unfold generate_districts_json.
  destruct (verify_items_spec get DISTRICTS [] Hno DISTRICTS_keys_NoDup)
    as (found & Hfound & Hrest).
  { intros d Hin. by apply elem_of_nil in Hin. }
  exists found. split; [exact Hfound | exact Hrest].
Qed.

Lemma valid_districts_are_verified_witness :
  ∃ valid_districts,
    generate_districts_json
      (λ url, if String.eqb url "https://idf.fff.fr/les-clubs/"
              then Returns 200%nat else Raises TimeoutError)
    = Returns valid_districts
    ∧ sublist (valid_districts.*1) (DISTRICTS.*1)
    ∧ (∀ d url, (d, url) ∈ valid_districts →
         (if String.eqb url "https://idf.fff.fr/les-clubs/"
          then Returns 200%nat else Raises TimeoutError) = Returns 200%nat
         ∧ ∃ b name, (d, b) ∈ DISTRICTS ∧ name ∈ candidates d b
                     ∧ url = district_url name)
    ∧ (∀ d b name, (d, b) ∈ DISTRICTS → name ∈ candidates d b →
         (if String.eqb (district_url name) "https://idf.fff.fr/les-clubs/"
          then Returns 200%nat else Raises TimeoutError) = Returns 200%nat →
         d ∈ valid_districts.*1).
Proof.
  apply (valid_districts_are_verified
           (λ url, if String.eqb url "https://idf.fff.fr/les-clubs/"
                   then Returns 200%nat else Raises TimeoutError)).
  intros url e. destruct (String.eqb _ _); [discriminate|].
  intros [= <-]. reflexivity.
Defined.

Lemma verify_url_raises get url e :
  verify_url get url = Raises e → e = KeyboardInterrupt.
Proof.
  unfold verify_url. destruct (get url) as [n|e']; [discriminate|].
  destruct e'; cbn [is_Exception]; congruence.
Qed.

Lemma try_variantes_raises get base_name variantes e :
  try_variantes get base_name variantes = Raises e → e = KeyboardInterrupt.
Proof.
  induction variantes as [|variante rest IH]; cbn [try_variantes]; [discriminate|].
  destruct (negb _); [|exact IH].
  destruct (verify_url get (district_url variante)) as [[|]|e'] eqn:E;
    [discriminate | exact IH |].
  intros [= <-]. by eapply verify_url_raises.
Qed.

Lemma find_valid_url_raises get district_name base_name e :
  find_valid_url get district_name base_name = Raises e → e = KeyboardInterrupt.
Proof.
  unfold find_valid_url.
  destruct (verify_url get (district_url base_name)) as [[|]|e'] eqn:E.
  - discriminate.
  - destruct (dict_get VARIANTES district_name); [|discriminate].
    apply try_variantes_raises.
  - intros [= <-]. by eapply verify_url_raises.
Qed.

Lemma verify_items_interrupted get items valid_districts d b :
  (d, b) ∈ items →
  get (district_url b) = Raises KeyboardInterrupt →
  verify_items get items valid_districts = Raises KeyboardInterrupt.
Proof.
  intros Hin Hget. revert valid_districts.
  induction items as [|[district_name base_name] rest IH]; intros valid_districts.
  - by apply elem_of_nil in Hin.
  - cbn [verify_items].
    destruct (find_valid_url get district_name base_name) as [r|e] eqn:E.
    + apply elem_of_cons in Hin as [[= <- <-]|Hin].
      * unfold find_valid_url, verify_url in E. rewrite Hget in E.
        cbn [is_Exception] in E. discriminate.
      * destruct r as [url|]; [destruct (truthy url)|]; by apply IH.
    + by rewrite (find_valid_url_raises _ _ _ _ E).
Qed.

(** X25.  A user interruption during the check of the base address of any
    district of the table ends [generate_districts_json] with that
    interruption: no dictionary is returned, and the districts verified
    before it are lost, since the file is written only after the loop. *)
Theorem interrupted_verification_returns_nothing get (district_name base_name : string) :
  (district_name, base_name) ∈ DISTRICTS →
  get (district_url base_name) = Raises KeyboardInterrupt →
  generate_districts_json get = Raises KeyboardInterrupt.
Proof. intros Hin Hget. by eapply verify_items_interrupted. Qed.

Lemma interrupted_verification_returns_nothing_witness :
  generate_districts_json
    (λ url, if String.eqb url "https://gironde.fff.fr/les-clubs/"
            then Raises KeyboardInterrupt else Returns 200%nat)
  = Raises KeyboardInterrupt.
Proof.
  apply (interrupted_verification_returns_nothing
           (λ url, if String.eqb url "https://gironde.fff.fr/les-clubs/"
                   then Raises KeyboardInterrupt else Returns 200%nat)
           "Gironde" "gironde").
  - apply (bool_decide_unpack _). vm_compute. exact I.
  - reflexivity.
Defined.

End DistrictFacts.
